(** * Schema fields of the dnd5e system: a shallow embedding of
    [module/data/fields.mjs].

    The field classes ([AdvancementField], [AdvancementDataField],
    [FormulaField], [MappingField]) are embedded as functions over a small
    model of the JavaScript store: primitive values, references to plain
    objects and arrays, and a heap of cells.  Methods that may throw or
    mutate objects run in the monad [M] (state passing over the heap, with
    exceptions).  Of [module/data/actor/vehicle.mjs], which builds its
    schema from these fields, the joint validation of the hit points is
    embedded. *)

From Stdlib Require Import ZArith Ascii String List Bool Lia.
From stdpp Require Import base option list strings pretty gmap.

Open Scope string_scope.
Open Scope Z_scope.
Open Scope nat_scope.
Open Scope list_scope.

(** ** Values and the heap *)

(** Primitive JavaScript values.  Numbers are restricted to integers. *)
Inductive prim : Type :=
  | PUndefined
  | PNull
  | PBoolean (b : bool)
  | PNumber (n : Z)
  | PString (s : string).

Abbreviation loc := nat (only parsing).

(** A value is a primitive or a reference to an object of the heap. *)
Inductive val : Type :=
  | VPrim (p : prim)
  | VRef (l : loc).

Coercion VPrim : prim >-> val.

(** The two kinds of raw (JSON-like) containers: [{...}] and [[...]]. *)
Inductive kind : Type := KObject | KArray.

(** An object: its kind and its own enumerable properties, in the order in
    which they were created (the order of enumeration, but for keys that
    are array indices, which JavaScript lists first).  An array holds its
    elements under the keys "0", "1", ...  Keys are ordinary property
    names: the special name [__proto__] is outside the model. *)
Record cell : Type := Cell { ckind : kind; props : list (string * val) }.

(** The heap: references are indices, allocation appends. *)
Abbreviation heap := (list cell) (only parsing).

#[global] Instance prim_eq_dec : EqDecision prim.
Proof. solve_decision. Defined.
#[global] Instance val_eq_dec : EqDecision val.
Proof. solve_decision. Defined.
#[global] Instance kind_eq_dec : EqDecision kind.
Proof. solve_decision. Defined.
#[global] Instance cell_eq_dec : EqDecision cell.
Proof. solve_decision. Defined.

(** ** Errors and outcomes *)

(** What a [throw] carries.  [ModelValidationError] is the host's aggregate
    error: it carries the per-key map of the underlying errors. *)
#[warning="-register-all"]
Inductive error : Type :=
  | TypeError (msg : string)
  | Error (msg : string)
  | ModelValidationError (errors : list (string * error)).

(** The result of running a method on a heap: a value and the new heap, an
    exception, or no result because the recursion allowance was used up
    ([OutOfFuel]) or the heap has a dangling reference ([Stuck]). *)
Inductive outcome (A : Type) : Type :=
  | Ok (a : A) (h : heap)
  | Throw (e : error)
  | OutOfFuel
  | Stuck.

Arguments Ok {A} a h.
Arguments Throw {A} e.
Arguments OutOfFuel {A}.
Arguments Stuck {A}.

Definition M (A : Type) : Type := heap -> outcome A.

Definition ret {A} (a : A) : M A := fun h => Ok a h.

Definition bind {A B} (m : M A) (k : A -> M B) : M B :=
  fun h =>
    match m h with
    | Ok a h' => k a h'
    | Throw e => Throw e
    | OutOfFuel => OutOfFuel
    | Stuck => Stuck
    end.

Definition throw {A} (e : error) : M A := fun _ => Throw e.

Declare Scope js_scope.
Delimit Scope js_scope with js.
Notation "'let*' x ':=' m 'in' k" := (bind m (fun x => k))
  (at level 10, x pattern, m at level 100, k at level 200, right associativity) : js_scope.
Notation "m ';;' k" := (bind m (fun _ => k))
  (at level 100, k at level 200, right associativity) : js_scope.
Open Scope js_scope.

(** [xs.forEach(f)] and [for (const x of xs) f(x)] over a snapshot [xs]. *)
Fixpoint forEach {A} (xs : list A) (f : A -> M unit) : M unit :=
  match xs with
  | [] => ret tt
  | x :: xs' => f x ;; forEach xs' f
  end.

(** [xs.reduce(f, init)] over a snapshot [xs]. *)
Fixpoint reduce {A B} (xs : list A) (f : B -> A -> M B) (init : B) : M B :=
  match xs with
  | [] => ret init
  | x :: xs' => let* acc := f init x in reduce xs' f acc
  end.

(** ** Properties of objects *)

(** [o[k]] on a property list: the first binding of [k]. *)
Fixpoint alist_get {V} (k : string) (ps : list (string * V)) : option V :=
  match ps with
  | [] => None
  | (k', v) :: ps' => if String.eqb k k' then Some v else alist_get k ps'
  end.

(** [o[k] = v] on a property list: an existing key keeps its position, a
    new key goes last. *)
Fixpoint alist_set {V} (k : string) (v : V) (ps : list (string * V)) : list (string * V) :=
  match ps with
  | [] => [(k, v)]
  | (k', v') :: ps' =>
      if String.eqb k k' then (k, v) :: ps' else (k', v') :: alist_set k v ps'
  end.

(** Allocation of a fresh object: the next free reference. *)
Definition alloc (c : cell) : M loc :=
  fun h => Ok (length h) (h ++ [c]).

Definition empty_object : cell := Cell KObject [].

(** The literal [{}]. *)
Definition new_object : M val :=
  let* l := alloc empty_object in ret (VRef l).

(** The cell behind a reference. *)
Definition deref (l : loc) : M cell :=
  fun h => match h !! l with Some c => Ok c h | None => Stuck end.

(** [v.k]: reading a property.  Reading a property of [null] or
    [undefined] throws a TypeError; a primitive has no own properties. *)
Definition get_property (v : val) (k : string) : M val :=
  match v with
  | VPrim PUndefined =>
      throw (TypeError ("Cannot read properties of undefined (reading '" +:+ k +:+ "')"))
  | VPrim PNull =>
      throw (TypeError ("Cannot read properties of null (reading '" +:+ k +:+ "')"))
  | VPrim _ => ret (VPrim PUndefined)
  | VRef l =>
      let* c := deref l in
      ret (default (VPrim PUndefined) (alist_get k (props c)))
  end.

(** [o[k] = v] on an object of the heap. *)
Definition set_property (l : loc) (k : string) (v : val) : M unit :=
  fun h =>
    match h !! l with
    | Some c => Ok tt (<[l := Cell (ckind c) (alist_set k v (props c))]> h)
    | None => Stuck
    end.

(** [target[k] = v], in strict mode: a write to an object of the heap; a
    TypeError on [null], [undefined] and the other primitives. *)
Definition assign_property (target : val) (k : string) (v : val) : M unit :=
  match target with
  | VRef l => set_property l k v
  | VPrim PUndefined =>
      throw (TypeError ("Cannot set properties of undefined (setting '" +:+ k +:+ "')"))
  | VPrim PNull =>
      throw (TypeError ("Cannot set properties of null (setting '" +:+ k +:+ "')"))
  | VPrim _ => throw (TypeError ("Cannot create property '" +:+ k +:+ "' on a primitive"))
  end.

(** [typeof v]. *)
Definition typeof (v : val) : string :=
  match v with
  | VPrim PUndefined => "undefined"
  | VPrim PNull => "object"
  | VPrim (PBoolean _) => "boolean"
  | VPrim (PNumber _) => "number"
  | VPrim (PString _) => "string"
  | VRef _ => "object"
  end.

(** Truthiness, as [if (v)], [!v] and [v || w] test it. *)
Definition truthy (v : val) : bool :=
  match v with
  | VPrim PUndefined | VPrim PNull => false
  | VPrim (PBoolean b) => b
  | VPrim (PNumber n) => negb (Z.eqb n 0)
  | VPrim (PString s) => negb (String.eqb s "")
  | VRef _ => true
  end.

(** [v === null || v === undefined], the test behind [??] and [?.]. *)
Definition nullish (v : val) : bool :=
  match v with
  | VPrim PUndefined | VPrim PNull => true
  | _ => false
  end.

(** The elements of a string, as [Object.entries("ab")] lists them. *)
Fixpoint string_entries (i : nat) (s : string) : list (string * val) :=
  match s with
  | EmptyString => []
  | String a s' => (pretty i, VPrim (PString (String a EmptyString))) :: string_entries (S i) s'
  end.

(** [Object.entries(v)]: throws on [null] and [undefined], lists the
    characters of a string, nothing for other primitives, and the own
    properties of an object. *)
Definition Object_entries (v : val) : M (list (string * val)) :=
  match v with
  | VPrim PUndefined | VPrim PNull =>
      throw (TypeError "Cannot convert undefined or null to object")
  | VPrim (PString s) => ret (string_entries 0 s)
  | VPrim _ => ret []
  | VRef l => let* c := deref l in ret (props c)
  end.

(** [Object.keys(v)]. *)
Definition Object_keys (v : val) : M (list string) :=
  let* es := Object_entries v in ret (map fst es).

(** [Object.values(v)]. *)
Definition Object_values (v : val) : M (list val) :=
  let* es := Object_entries v in ret (map snd es).

(** ** The host's utilities, [foundry.utils]

    The host framework is not part of the repository; the four utilities
    the fields call are modelled here on raw values. *)

(** Modelled from the spec: [foundry.utils.getType] is the host's; it tells
    a plain object ("Object") from an array, [null] and the primitives
    (the "object-like keyed container" test of the mapping field). *)
Definition getType (v : val) : M string :=
  match v with
  | VPrim PUndefined => ret "undefined"
  | VPrim PNull => ret "null"
  | VPrim (PBoolean _) => ret "boolean"
  | VPrim (PNumber _) => ret "number"
  | VPrim (PString _) => ret "string"
  | VRef l =>
      let* c := deref l in
      ret (match ckind c with KObject => "Object" | KArray => "Array" end)
  end.

(** Modelled from the spec: [foundry.utils.isEmpty] is the host's; a
    mapping is empty when it has no entry, as is an array without elements.
    What the host answers for a value that is not a container is not
    stated; the cases of the primitives are given for completeness, and
    the properties of this file apply [isEmpty] to objects or take its
    answer as a hypothesis. *)
Definition isEmpty (v : val) : M bool :=
  match v with
  | VPrim PUndefined | VPrim PNull => ret true
  | VPrim _ => ret false
  | VRef l => let* c := deref l in ret (match props c with [] => true | _ => false end)
  end.

(** Modelled from the spec: the body of the loop of [deepClone] over the
    keys of the original, [clone[k] = deepClone(original[k])]. *)
Definition clone_key (deepClone : val -> M val) (original : val) (clone : loc)
    (k : string) : M unit :=
  let* v := get_property original k in
  let* v' := deepClone v in
  set_property clone k v'.

(** Modelled from the spec: [foundry.utils.deepClone] is the host's; it
    produces "a deep, independent copy of the raw value": primitives are
    returned as they are, an object or array is rebuilt in a fresh object,
    key by key, from the clones of its values.  [fuel] bounds the nesting
    depth followed. *)
Fixpoint deepClone (fuel : nat) (original : val) : M val :=
  match original with
  | VPrim _ => ret original
  | VRef l =>
      match fuel with
      | 0 => fun _ => OutOfFuel
      | S fuel' =>
          let* c := deref l in
          let* clone := alloc (Cell (ckind c) []) in
          forEach (map fst (props c)) (clone_key (deepClone fuel') original clone) ;;
          ret (VRef clone)
      end
  end.

(** Modelled from the spec: [_mergeInsert], the part of the host's merge
    for a key the original lacks.  A plain object is inserted as a merge
    into a fresh [{}], anything else as it is. *)
Definition _mergeInsert (mergeObject : val -> val -> bool -> M val)
    (original : loc) (k : string) (v : val) : M unit :=
  let* tv := getType v in
  if String.eqb tv "Object" then
    let* e := new_object in
    let* r := mergeObject e v true in
    set_property original k r
  else set_property original k v.

(** Modelled from the spec: [_mergeUpdate], the part of the host's merge
    for a key the original has.  Two plain objects are merged recursively,
    in place; otherwise the other's value overwrites the original's. *)
Definition _mergeUpdate (mergeObject : val -> val -> bool -> M val)
    (original : loc) (k : string) (v : val) : M unit :=
  let* x := get_property (VRef original) k in
  let* tv := getType v in
  let* tx := getType x in
  if String.eqb tv "Object" && String.eqb tx "Object" then
    mergeObject x v true ;; ret tt
  else set_property original k v.

(** [original.hasOwnProperty(k)] for an object of the heap. *)
Definition hasOwnProperty (original : loc) (k : string) : M bool :=
  let* c := deref original in
  ret (match alist_get k (props c) with Some _ => true | None => false end).

(** Modelled from the spec: the body of the loop of [mergeObject] over the
    keys of [other]: update a key the original has, insert one it lacks. *)
Definition merge_key (mergeObject : val -> val -> bool -> M val)
    (original : loc) (other : val) (k : string) : M unit :=
  let* v := get_property other k in
  let* has := hasOwnProperty original k in
  if has then _mergeUpdate mergeObject original k v
  else _mergeInsert mergeObject original k v.

(** Modelled from the spec: [foundry.utils.mergeObject] is the host's; it
    "merges the declared defaults with the raw value (raw values win on key
    conflicts)": every key of [other] is written into [original], two plain
    objects under one key being merged recursively.  With [inplace] unset,
    as the option says, the merge is applied to a deep clone of [original],
    which is returned; otherwise it updates [original] itself.  The host's
    expansion of keys that contain a dot is outside the model.  [fuel]
    bounds the nesting depth followed. *)
Fixpoint mergeObject (fuel : nat) (original other : val) (inplace : bool) : M val :=
  match fuel with
  | 0 => fun _ => OutOfFuel
  | S fuel' =>
      let* other := (if truthy other then ret other else new_object) in
      match original, other with
      | VRef _, VRef _ =>
          let* original := (if inplace then ret original else deepClone fuel original) in
          match original with
          | VRef o =>
              let* keys := Object_keys other in
              forEach keys (merge_key (mergeObject fuel') o other) ;;
              ret original
          | VPrim _ => fun _ => Stuck
          end
      | _, _ => throw (Error "One of original or other are not Objects!")
      end
  end.

(** ** External collaborators *)

(** The options bag of [clean]; the fields read [partial] only. *)
Record Options : Type := { partial : bool }.

(** A sub-schema descriptor, a data model class registered for a
    discriminator: its static [cleanData(value, options)] and its
    constructor [new cls(value, {parent, ...options})]. *)
Record DataModel : Type := {
  cleanData : val -> Options -> M val;
  construct : val -> val -> Options -> M val
}.

(** [CONFIG.DND5E.advancementTypes], the process-wide registry, as the
    lookup [advancementTypes[type]] from a discriminator value to what the
    property read finds, if anything: the class registered for it or, on a
    registry that is an ordinary object, a member the object inherits. *)
Record CONFIG : Type := { advancementTypes : val -> option DataModel }.

(** The key under which [o[v]] looks a primitive [v] up: its conversion to
    a string.  An object is converted through its [toString] method, which
    is outside the model: no key is given for it. *)
Definition property_key (v : val) : option string :=
  match v with
  | VPrim PUndefined => Some "undefined"
  | VPrim PNull => Some "null"
  | VPrim (PBoolean b) => Some (if b then "true" else "false")
  | VPrim (PNumber n) => Some (pretty n)
  | VPrim (PString s) => Some s
  | VRef _ => None
  end.

(** The function [Object], which every ordinary object inherits under the
    name [constructor], where a class is expected: it has no [cleanData],
    so [cls.cleanData(value, options)] throws; [new Object(value, ...)]
    returns [value] itself when it is an object and a new empty object
    when it is [null] or [undefined].  The wrapper object it makes of
    another primitive is outside the model: no result is given for it. *)
Definition ObjectConstructor : DataModel := {|
  cleanData := fun _ _ => throw (TypeError "cls.cleanData is not a function");
  construct := fun v _ _ =>
    match v with
    | VRef _ => ret v
    | VPrim PUndefined | VPrim PNull => new_object
    | VPrim _ => fun _ => Stuck
    end
|}.

(** The other members an ordinary object inherits from [Object.prototype]
    (its methods, and the prototype itself under [__proto__]), where a
    class is expected: none has a [cleanData], none can be constructed. *)
Definition PrototypeMember : DataModel := {|
  cleanData := fun _ _ => throw (TypeError "cls.cleanData is not a function");
  construct := fun _ _ _ => throw (TypeError "cls is not a constructor")
|}.

(** What an ordinary object inherits under the name [key], if anything. *)
Definition inherited_member (key : string) : option DataModel :=
  if String.eqb key "constructor" then Some ObjectConstructor
  else if bool_decide (key ∈ ["__proto__"; "hasOwnProperty"; "isPrototypeOf";
                              "propertyIsEnumerable"; "toLocaleString"; "toString";
                              "valueOf"; "__defineGetter__"; "__defineSetter__";
                              "__lookupGetter__"; "__lookupSetter__"])
  then Some PrototypeMember
  else None.

(** [CONFIG.DND5E.advancementTypes] as an ordinary object (an object
    literal) that holds the classes of [registered] under their names:
    [advancementTypes[type]] finds the class registered under the key of
    [type] or, there being none, the member of that name which the object
    inherits. *)
Definition ordinary_registry (registered : gmap string DataModel) : CONFIG := {|
  advancementTypes := fun type =>
    key ← property_key type;
    match registered !! key with
    | Some cls => Some cls
    | None => inherited_member key
    end
|}.

(** A field definition of the host, as a mapping field uses its child:
    [clean], [validate] (which returns the error or nothing, and reads the
    heap only), [getInitialValue]. *)
Record DataField : Type := {
  clean : val -> Options -> M val;
  validate : heap -> val -> Options -> option error;
  getInitialValue : M val
}.

(** The formula evaluator of the host, [Roll]: the constructor (which
    parses), [isDeterministic], [formula], the static [safeEval] and
    [evaluate]. *)
Record RollClass : Type := {
  roll : Type;
  Roll_new : val -> error + roll;
  isDeterministic : roll -> bool;
  formula : roll -> string;
  safeEval : string -> error + Z;
  evaluate : roll -> error + roll
}.

(** Running a collaborator that returns or throws. *)
Definition lift {A} (r : error + A) : M A :=
  match r with inl e => throw e | inr a => ret a end.

(** The guard both advancement fields start [_cleanType] with:
    [if ( !(typeof value === "object") ) value = {};]. *)
Definition non_object_guard (value : val) : M val :=
  if negb (String.eqb (typeof value) "object") then new_object else ret value.

(** ** [AdvancementField] *)

Module AdvancementField.

(** [getModelForType(type)]: [CONFIG.DND5E.advancementTypes[type] ?? null]. *)
Definition getModelForType (CONFIG_DND5E : CONFIG) (type : val) : option DataModel :=
  advancementTypes CONFIG_DND5E type.

(** [_cleanType(value, options)]. *)
Definition _cleanType (CONFIG_DND5E : CONFIG) (value : val) (options : Options) : M val :=
  let* value := non_object_guard value in
  let* type := get_property value "type" in
  match getModelForType CONFIG_DND5E type with
  | Some cls => cleanData cls value options
  | None => ret value
  end.

(** [initialize(value, model, options)]. *)
Definition initialize (fuel : nat) (CONFIG_DND5E : CONFIG)
    (value model : val) (options : Options) : M val :=
  let* type := get_property value "type" in
  match getModelForType CONFIG_DND5E type with
  | Some cls => construct cls value model options
  | None => deepClone fuel value
  end.

End AdvancementField.

(** ** [AdvancementDataField] *)

Module AdvancementDataField.

(** [advancementType.metadata]: the data models and the defaults, both
    keyed by field name; either table may be missing. *)
Record metadata : Type := {
  dataModels : option (gmap string DataModel);
  defaults : option (gmap string val)
}.

(** The field: the advancement class it belongs to (of which only the
    metadata is read) and its own name. *)
Record t : Type := {
  advancementType_metadata : option metadata;
  name : string
}.

(** [getModel()]: [this.advancementType.metadata?.dataModels?.[this.name]]. *)
Definition getModel (this : t) : option DataModel :=
  md ← advancementType_metadata this; dm ← dataModels md; dm !! name this.

(** [getDefaults()]:
    [this.advancementType.metadata?.defaults?.[this.name] ?? {}]. *)
Definition getDefaults (this : t) : M val :=
  match md ← advancementType_metadata this; d ← defaults md; d !! name this with
  | Some v => if nullish v then new_object else ret v
  | None => new_object
  end.

(** [_cleanType(value, options)]. *)
Definition _cleanType (fuel : nat) (this : t) (value : val) (options : Options) : M val :=
  let* value := non_object_guard value in
  match getModel this with
  | Some cls => cleanData cls value options
  | None =>
      if partial options then ret value
      else
        let* defaults := getDefaults this in
        mergeObject fuel defaults value false
  end.

(** [initialize(value, model, options)]. *)
Definition initialize (fuel : nat) (this : t)
    (value model : val) (options : Options) : M val :=
  match getModel this with
  | Some cls => construct cls value model options
  | None => deepClone fuel value
  end.

End AdvancementDataField.

(** ** [FormulaField] *)

Module FormulaField.

(** The field: its [deterministic] option and the type validation it
    inherits from the host's string field, [super._validateType]. *)
Record t : Type := {
  deterministic : bool;
  super_validateType : val -> M unit
}.

(** [_validateType(value)]. *)
Definition _validateType (Roll : RollClass) (this : t) (value : val) : M unit :=
  let* roll := lift (Roll_new Roll value) in
  (if deterministic this then
     (if negb (isDeterministic Roll roll)
      then throw (Error "must not contain dice terms") else ret tt) ;;
     lift (safeEval Roll (formula Roll roll)) ;; ret tt
   else
     lift (evaluate Roll roll) ;; ret tt) ;;
  super_validateType this value.

End FormulaField.

(** ** [MappingField] *)

Module MappingField.

(** [initialKeys]: a list of keys, or an object whose own keys are used. *)
Inductive keys : Type :=
  | KeyArray (ks : list string)
  | KeyObject (entries : list (string * val)).

(** The field: the embedded child definition [model], the options
    [initialKeys] and [initialValue] (both [null] by default), and the
    initial value it inherits, [super.getInitialValue(data)]. *)
Record t : Type := {
  model : DataField;
  initialKeys : option keys;
  initialValue : option (string -> val -> M val);
  super_getInitialValue : M val
}.

(** [_cleanType(value, options)]. *)
Definition _cleanType (this : t) (value : val) (options : Options) : M val :=
  let* vs := Object_values value in
  forEach vs (fun v => clean (model this) v options ;; ret tt) ;;
  ret value.

(** The body of the loop of [getInitialValue] over the keys:
    [initial[key] = this.initialValue?.(key, modelInitial) ?? modelInitial]. *)
Definition seed_key (this : t) (initial : val) (key : string) : M unit :=
  let* modelInitial := getInitialValue (model this) in
  let* x := match initialValue this with
            | Some f =>
                let* r := f key modelInitial in
                ret (if nullish r then modelInitial else r)
            | None => ret modelInitial
            end in
  assign_property initial key x.

(** [getInitialValue(data)]. *)
Definition getInitialValue (this : t) : M val :=
  let keys := initialKeys this in
  let* initial := super_getInitialValue this in
  match keys with
  | Some keys =>
      let* empty := isEmpty initial in
      if negb empty then ret initial
      else
        let keys := match keys with
                    | KeyArray ks => ks
                    | KeyObject es => map fst es
                    end in
        forEach keys (seed_key this initial) ;;
        ret initial
  | None => ret initial
  end.

(** The body of the loop of [_validateValues] over the entries:
    [const error = this.model.validate(v, options);
     if ( error ) errors[k] = error;]. *)
Definition collect_error (this : t) (h : heap) (options : Options)
    (errors : list (string * error)) (kv : string * val) : list (string * error) :=
  match validate (model this) h kv.2 options with
  | Some error => alist_set kv.1 error errors
  | None => errors
  end.

(** [_validateValues(value, options)]: the errors of the entries, by key. *)
Definition _validateValues (this : t) (value : val) (options : Options)
    : M (list (string * error)) :=
  let* es := Object_entries value in
  fun h => Ok (fold_left (collect_error this h options) es []) h.

(** [_validateType(value, options)]. *)
Definition _validateType (this : t) (value : val) (options : Options) : M unit :=
  let* ty := getType value in
  if negb (String.eqb ty "Object") then throw (Error "must be an Object")
  else
    let* errors := _validateValues this value options in
    match errors with
    | [] => ret tt
    | _ :: _ => throw (ModelValidationError errors)
    end.

(** The callback of the [reduce] of [initialize]:
    [obj[k] = this.model.initialize(v, model, options); return obj;].  The
    child's [initialize], which the host's field interface declares beside
    [clean] and [validate], is [model_initialize]. *)
Definition initialize_entry (model_initialize : val -> val -> Options -> M val)
    (model : val) (options : Options) (obj : val) (kv : string * val) : M val :=
  let* x := model_initialize kv.2 model options in
  assign_property obj kv.1 x ;;
  ret obj.

(** [initialize(value, model, options)]. *)
Definition initialize (model_initialize : val -> val -> Options -> M val)
    (value model : val) (options : Options) : M val :=
  if negb (truthy value) then ret value
  else
    let* es := Object_entries value in
    let* obj := new_object in
    reduce es (initialize_entry model_initialize model options) obj.

End MappingField.

(** ** [VehicleData] *)

Module VehicleData.

(** [ToNumber] on [undefined], [null], a boolean and a number; [None] is
    NaN.  A string is not converted here: [less_equal] gives no result for
    strings and does not reach this case. *)
Definition ToNumber (p : prim) : option Z :=
  match p with
  | PUndefined => None
  | PNull => Some 0%Z
  | PBoolean b => Some (if b then 1%Z else 0%Z)
  | PNumber n => Some n
  | PString _ => None
  end.

(** [a <= b]: both operands converted to numbers, false when either is
    NaN.  The comparison of strings and of objects is outside the model:
    no result is given for them. *)
Definition less_equal (a b : val) : option bool :=
  match a, b with
  | VPrim (PString _), _ | _, VPrim (PString _) => None
  | VPrim a, VPrim b =>
      Some (match ToNumber a, ToNumber b with
            | Some x, Some y => (x <=? y)%Z
            | _, _ => false
            end)
  | _, _ => None
  end.

(** The [validate] option of the [hp] schema of [defineSchema]:
    [d => d.min <= d.max]. *)
Definition hp_validate (d : val) : M (option bool) :=
  let* min := get_property d "min" in
  let* max := get_property d "max" in
  ret (less_equal min max).

End VehicleData.

(** The entry the metadata declares for the field in its table of defaults,
    if there is one: [this.advancementType.metadata?.defaults?.[this.name]]. *)
Definition declared_defaults (this : AdvancementDataField.t) : option val :=
  md ← AdvancementDataField.advancementType_metadata this;
  d ← AdvancementDataField.defaults md;
  d !! AdvancementDataField.name this.

(** The entries of a raw mapping that fail the child's validation. *)
Definition failing (this : MappingField.t) (h : heap) (options : Options)
    (ps : list (string * val)) : list (string * val) :=
  filter (fun kv => is_Some (validate (MappingField.model this) h kv.2 options)) ps.

(** What [getInitialValue] stores under [key]: an initial value [mi] of the
    child, or what the value producer makes of it, unless that is [null] or
    [undefined]. *)
Definition seeded (this : MappingField.t) (key : string) (v : val) : Prop :=
  exists h1 mi h2,
    getInitialValue (MappingField.model this) h1 = Ok mi h2 /\
    match MappingField.initialValue this with
    | None => v = mi
    | Some f => exists r h3, f key mi h2 = Ok r h3 /\ v = if nullish r then mi else r
    end.

(** What [initialize] stores for an entry [kv] of the raw mapping: under
    the same key, the result of the child's [initialize] on its value. *)
Definition initialized (model_initialize : val -> val -> Options -> M val)
    (model : val) (options : Options) (kv kx : string * val) : Prop :=
  kx.1 = kv.1 /\ exists h1 h2, model_initialize kv.2 model options h1 = Ok kx.2 h2.

(** ** What a value denotes

    A raw value is JSON-like: followed through the heap it unfolds into a
    finite tree.  [json] is that tree; [tree] also records at which
    reference each object lives, which is what sharing and independence are
    stated with. *)

#[warning="-register-all"]
Inductive json : Type :=
  | JPrim (p : prim)
  | JNode (k : kind) (fields : list (string * json)).

#[warning="-register-all"]
Inductive tree : Type :=
  | TPrim (p : prim)
  | TNode (l : loc) (k : kind) (fields : list (string * tree)).

(** The content of a tree: the references forgotten. *)
Fixpoint erase (t : tree) : json :=
  match t with
  | TPrim p => JPrim p
  | TNode _ k fs => JNode k (map (fun kt => (kt.1, erase kt.2)) fs)
  end.

(** The references of the objects of a tree, with repetitions. *)
Fixpoint locs (t : tree) : list loc :=
  match t with
  | TPrim _ => []
  | TNode l _ fs => l :: flat_map (fun kt => locs kt.2) fs
  end.

(** [reify n h v]: the tree [v] unfolds into in [h], followed to depth [n]
    at most.  There is none when a reference dangles, when an object lists
    a key twice, or when the structure is deeper than [n] (a cyclic one is
    deeper than any [n]). *)
Fixpoint reify (n : nat) (h : heap) (v : val) : option tree :=
  match v with
  | VPrim p => Some (TPrim p)
  | VRef l =>
      match n with
      | 0 => None
      | S n' =>
          c ← h !! l;
          if bool_decide (NoDup (map fst (props c))) then
            fs ← mapM (fun kv => t ← reify n' h kv.2; Some (kv.1, t)) (props c);
            Some (TNode l (ckind c) fs)
          else None
      end
  end.

(** A plain object, as opposed to an array or a primitive. *)
Definition is_plain (j : json) : bool :=
  match j with JNode KObject _ => true | _ => false end.

(** The merge of two contents, after the spec's words "merges the declared
    defaults with the raw value (raw values win on key conflicts)": the
    fields of [other] are written into those of [original], in order; a key
    of [other] holds the value of [other], two plain objects under one key
    being merged in the same way. *)
Fixpoint merge_json (original other : json) {struct other} : json :=
  match original, other with
  | JNode ko fo, JNode _ fr =>
      JNode ko
        ((fix go (fr : list (string * json)) (acc : list (string * json)) :=
            match fr with
            | [] => acc
            | (k, v) :: fr' =>
                go fr'
                  (alist_set k
                     (match alist_get k acc with
                      | Some x =>
                          if is_plain v && is_plain x then merge_json x v else v
                      | None =>
                          if is_plain v then merge_json (JNode KObject []) v else v
                      end) acc)
            end) fr fo)
  | _, _ => original
  end.

(** A content of depth [n] at most in which no object lists a key twice. *)
Fixpoint wf_json (n : nat) (j : json) : Prop :=
  match n, j with
  | _, JPrim _ => True
  | 0, JNode _ _ => False
  | S n', JNode _ fs => NoDup (map fst fs) /\ Forall (fun kj => wf_json n' kj.2) fs
  end.

(** The fields of an object unfold, key by key, into the fields of a tree. *)
Definition fields_rel (n : nat) (h : heap) : list (string * val) -> list (string * tree) -> Prop :=
  Forall2 (fun kv kt => kt.1 = kv.1 /\ reify n h kv.2 = Some kt.2).

(** The references of the objects under the fields of a tree. *)
Definition fields_locs (fs : list (string * tree)) : list loc :=
  flat_map (fun kt => locs kt.2) fs.

(** The references of the objects of a tree that may be absent. *)
Definition olocs (ot : option tree) : list loc :=
  match ot with Some t => locs t | None => [] end.

(** The content of the fields of a tree. *)
Definition erase_fields (fs : list (string * tree)) : list (string * json) :=
  map (fun kt => (kt.1, erase kt.2)) fs.

(** The fields of a content. *)
Definition fields_of (j : json) : list (string * json) :=
  match j with JNode _ fs => fs | JPrim _ => [] end.

(** The value the merge writes under a key, on contents. *)
Definition merge_value (ox : option json) (v : json) : json :=
  match ox with
  | Some x => if is_plain v && is_plain x then merge_json x v else v
  | None => if is_plain v then merge_json (JNode KObject []) v else v
  end.

(** One step of the merge on contents: the field [kv] of the other object
    written into the fields [acc]. *)
Definition merge_step (acc : list (string * json)) (kv : string * json) : list (string * json) :=
  alist_set kv.1 (merge_value (alist_get kv.1 acc) kv.2) acc.

(** Every object that exists in [h] is unchanged in [h']. *)
Definition preserved (h h' : heap) : Prop :=
  forall l c, h !! l = Some c -> h' !! l = Some c.

(** What a clone is: every object that existed is unchanged, the clone has
    the content of the original, and its objects are all new and pairwise
    distinct. *)
Definition is_clone (n : nat) (h : heap) (t : tree) (v' : val) (h' : heap) : Prop :=
  preserved h h' /\
  exists t', reify n h' v' = Some t' /\ erase t' = erase t /\
    Forall (fun l => length h <= l) (locs t') /\ NoDup (locs t').

(** What an in-place merge of the object [r] (of tree [tr]) into the object
    [o] (of tree [to]) achieves: it returns [o]; it writes to the objects of
    [to] and to new objects only; [o] then holds the merge of the two
    contents, built from objects of [to], of [tr] and new ones. *)
Definition merged (m : nat) (h : heap) (o : loc) (to tr : tree) (out : outcome val) : Prop :=
  exists h' t', out = Ok (VRef o) h' /\
    length h <= length h' /\
    (forall l, l < length h -> l ∉ locs to -> h' !! l = h !! l) /\
    reify m h' (VRef o) = Some t' /\
    erase t' = merge_json (erase to) (erase tr) /\
    (forall l, l ∈ locs t' -> l ∈ locs to \/ l ∈ locs tr \/ length h <= l).

(** While the keys [rest] of a merge into [o] are still to be written: [l]
    is neither [o] nor in the subtree that [o] had under a key of [rest]
    other than [k]. *)
Definition sep (o : loc) (fso : list (string * tree)) (rest : list string)
    (k : string) (l : loc) : Prop :=
  l <> o /\
  forall k' t', k' ∈ rest -> k' <> k -> alist_get k' fso = Some t' -> l ∉ locs t'.

(** ** Example collaborators

    Small stand-ins for the host's classes, used to run the fields on
    concrete inputs. *)

(** A decimal numeral, read as a number. *)
Fixpoint parse_digits (acc : nat) (s : string) : option nat :=
  match s with
  | EmptyString => Some acc
  | String a s' =>
      let d := nat_of_ascii a - 48 in
      if (48 <=? nat_of_ascii a) && (nat_of_ascii a <=? 57)
      then parse_digits (10 * acc + d) s' else None
  end.

Definition parse_integer (s : string) : option Z :=
  match s with
  | EmptyString => None
  | _ => n ← parse_digits 0 s; Some (Z.of_nat n)
  end.

(** A numeric leaf field that requires integers: [clean] coerces a numeral
    to the number it denotes, [validate] accepts numbers only, the initial
    value is 0. *)
Definition IntegerField : DataField := {|
  clean := fun v _ =>
    ret (match v with
         | VPrim (PString s) =>
             match parse_integer s with Some n => VPrim (PNumber n) | None => v end
         | _ => v
         end);
  validate := fun _ v _ =>
    match v with
    | VPrim (PNumber _) => None
    | _ => Some (Error "must be an integer")
    end;
  getInitialValue := ret (VPrim (PNumber 0))
|}.

(** A stand-in formula evaluator: a formula is a string, it has a dice term
    when a "d" occurs in it, and the safe evaluator sums the numerals of a
    formula made of digits, spaces and "+" only. *)
Fixpoint has_dice (s : string) : bool :=
  match s with
  | EmptyString => false
  | String a s' => Ascii.eqb a "d"%char || has_dice s'
  end.

Fixpoint sum_terms (total cur : nat) (s : string) : error + Z :=
  match s with
  | EmptyString => inr (Z.of_nat (total + cur))
  | String a s' =>
      if Ascii.eqb a " "%char then sum_terms total cur s'
      else if Ascii.eqb a "+"%char then sum_terms (total + cur) 0 s'
      else if (48 <=? nat_of_ascii a) && (nat_of_ascii a <=? 57)
      then sum_terms total (10 * cur + (nat_of_ascii a - 48)) s'
      else inl (Error "Unexpected token")
  end.

Definition ExampleRoll : RollClass := {|
  roll := string;
  Roll_new := fun v =>
    match v with
    | VPrim (PString s) => inr s
    | _ => inl (Error "Roll formula must be a string")
    end;
  isDeterministic := fun r => negb (has_dice r);
  formula := fun r => r;
  safeEval := sum_terms 0 0;
  evaluate := fun r => inr r
|}.

(** A data model class: [cleanData] returns the data as they are, the
    constructor validates strictly and rejects data without a "level". *)
Definition StrictModel : DataModel := {|
  cleanData := fun v _ => ret v;
  construct := fun v _ _ =>
    let* level := get_property v "level" in
    match level with
    | VPrim (PNumber _) => ret v
    | _ => throw (Error "level: may not be undefined")
    end
|}.

(** A registry that knows the advancement type "ItemGrant" only. *)
Definition ExampleConfig : CONFIG := {|
  advancementTypes := fun type =>
    if decide (type = VPrim (PString "ItemGrant")) then Some StrictModel else None
|}.

(** A heap with an advancement of an unknown type, its nested
    configuration, and a defaults template:
    0: [{type: "Custom", configuration: #1}], 1: [{items: #2, hint: "x"}],
    2: [["a"]], 3: [{hint: "none", choices: #4}], 4: [{count: 1}],
    5: [{type: "ItemGrant"}]. *)
Definition ExampleHeap : heap := [
  Cell KObject [("type", VPrim (PString "Custom")); ("configuration", VRef 1)];
  Cell KObject [("items", VRef 2); ("hint", VPrim (PString "x"))];
  Cell KArray [("0", VPrim (PString "a"))];
  Cell KObject [("hint", VPrim (PString "none")); ("choices", VRef 4)];
  Cell KObject [("count", VPrim (PNumber 1))];
  Cell KObject [("type", VPrim (PString "ItemGrant"))]
].

(** An advancement data field "configuration" without a data model, whose
    declared defaults are the template at reference 3. *)
Definition ExampleDataField : AdvancementDataField.t := {|
  AdvancementDataField.advancementType_metadata := Some {|
    AdvancementDataField.dataModels := None;
    AdvancementDataField.defaults := Some {[ "configuration" := VRef 3 ]}
  |};
  AdvancementDataField.name := "configuration"
|}.

(** A mapping field over the integer leaf field, with the host's defaults:
    no initial keys, no value producer, [{}] as initial value. *)
Definition ExampleMapping : MappingField.t := {|
  MappingField.model := IntegerField;
  MappingField.initialKeys := None;
  MappingField.initialValue := None;
  MappingField.super_getInitialValue := new_object
|}.

(** The same field with [initialKeys: ["str", "dex"]] and a value producer
    that gives "dex" the value 10 and returns nothing for other keys. *)
Definition ExampleSeededMapping : MappingField.t := {|
  MappingField.model := IntegerField;
  MappingField.initialKeys := Some (MappingField.KeyArray ["str"; "dex"]);
  MappingField.initialValue := Some (fun key _ =>
    ret (if String.eqb key "dex" then VPrim (PNumber 10) else VPrim PUndefined));
  MappingField.super_getInitialValue := new_object
|}.

(** The raw mapping [{a: "3", b: "bad"}]. *)
Definition ExampleMappingHeap : heap := [
  Cell KObject [("a", VPrim (PString "3")); ("b", VPrim (PString "bad"))]
].

(** A deterministic formula field over a string field that accepts
    anything, and one over a string field with [choices: ["1"]]. *)
Definition ExampleFormulaField : FormulaField.t := {|
  FormulaField.deterministic := true;
  FormulaField.super_validateType := fun _ => ret tt
|}.

Definition ExampleChoiceFormulaField : FormulaField.t := {|
  FormulaField.deterministic := true;
  FormulaField.super_validateType := fun v =>
    if decide (v = VPrim (PString "1")) then ret tt
    else throw (Error "is not a valid choice")
|}.

(** The registry of [ExampleConfig] as an ordinary object: it registers
    the advancement type "ItemGrant" only.  And a heap with an advancement
    whose type is "constructor": 0: [{type: "constructor", level: 1}]. *)
Definition ExampleRegistry : CONFIG :=
  ordinary_registry {[ "ItemGrant" := StrictModel ]}.

Definition ExampleConstructorHeap : heap := [
  Cell KObject [("type", VPrim (PString "constructor")); ("level", VPrim (PNumber 1))]
].

(** An advancement data field "value" of an advancement type without
    metadata: no data model, no defaults. *)
Definition ExampleBareDataField : AdvancementDataField.t := {|
  AdvancementDataField.advancementType_metadata := None;
  AdvancementDataField.name := "value"
|}.

(** A formula field that is not deterministic, over a string field that
    accepts anything. *)
Definition ExampleDiceFormulaField : FormulaField.t := {|
  FormulaField.deterministic := false;
  FormulaField.super_validateType := fun _ => ret tt
|}.

(** Mapping fields over the integer leaf field, without value producer:
    one with [initialKeys: {str: "Strength", dex: "Dexterity"}], an object,
    and one whose declared initial value is the object at reference 2, the
    same at every call. *)
Definition ExampleObjectKeysMapping : MappingField.t := {|
  MappingField.model := IntegerField;
  MappingField.initialKeys := Some (MappingField.KeyObject
    [("str", VPrim (PString "Strength")); ("dex", VPrim (PString "Dexterity"))]);
  MappingField.initialValue := None;
  MappingField.super_getInitialValue := new_object
|}.

Definition ExampleSharedInitialMapping : MappingField.t := {|
  MappingField.model := IntegerField;
  MappingField.initialKeys := Some (MappingField.KeyArray ["str"; "dex"]);
  MappingField.initialValue := None;
  MappingField.super_getInitialValue := ret (VRef 2)
|}.

(** A child field whose initial value is a new empty object at each call,
    and a mapping field over it with [initialKeys: ["str", "dex"]]. *)
Definition ObjectChildField : DataField := {|
  clean := fun v _ => ret v;
  validate := fun _ _ _ => None;
  getInitialValue := new_object
|}.

Definition ExampleObjectChildMapping : MappingField.t := {|
  MappingField.model := ObjectChildField;
  MappingField.initialKeys := Some (MappingField.KeyArray ["str"; "dex"]);
  MappingField.initialValue := None;
  MappingField.super_getInitialValue := new_object
|}.

(** A heap with two [hp] blocks: 0: [{value: null, min: 0, max: null}], the
    declared initial values, and 1: [{value: 4, min: 2, max: null}]. *)
Definition ExampleHpHeap : heap := [
  Cell KObject [("value", VPrim PNull); ("min", VPrim (PNumber 0)); ("max", VPrim PNull)];
  Cell KObject [("value", VPrim (PNumber 4)); ("min", VPrim (PNumber 2)); ("max", VPrim PNull)]
].

(** A child field whose [initialize] returns its argument, as the host's
    fields do by default, and one whose [initialize] wraps the value in a
    new object [{value: v}]. *)
Definition LeafInitialize : val -> val -> Options -> M val :=
  fun v _ _ => ret v.

Definition WrapInitialize : val -> val -> Options -> M val :=
  fun v _ _ => let* l := alloc (Cell KObject [("value", v)]) in ret (VRef l).

(** A heap with the mapping [{a: #1, b: #2, c: #1}] at reference 0, where
    1: [{level: 1}] and 2: [{}]. *)
Definition ExampleCrewHeap : heap := [
  Cell KObject [("a", VRef 1); ("b", VRef 2); ("c", VRef 1)];
  Cell KObject [("level", VPrim (PNumber 1))];
  Cell KObject []
].

(** * Properties *)

(** ** Property lists *)

Section alist.
Context {V : Type}.
Implicit Types (ps : list (string * V)) (k : string) (v : V).

Lemma alist_get_None k ps : alist_get k ps = None <-> k ∉ map fst ps.
Proof.
  induction ps as [|[k' v'] ps IH]; simpl.
  - split; [intros _; apply not_elem_of_nil | done].
  - rewrite not_elem_of_cons. destruct (String.eqb_spec k k') as [->|Hne].
    + split; [done | intros [? _]; done].
    + rewrite IH. tauto.
Qed.

Lemma alist_get_Some_elem k v ps : alist_get k ps = Some v -> (k, v) ∈ ps.
Proof.
  induction ps as [|[k' v'] ps IH]; simpl; [done|].
  destruct (String.eqb_spec k k') as [->|Hne].
  - intros [= ->]. left.
  - intros H. right. auto.
Qed.

Lemma alist_get_elem k v ps :
  NoDup (map fst ps) -> (k, v) ∈ ps -> alist_get k ps = Some v.
Proof.
  induction ps as [|[k' v'] ps IH]; simpl; intros Hnd Hin.
  - by apply elem_of_nil in Hin.
  - apply NoDup_cons in Hnd as [Hk' Hnd].
    apply elem_of_cons in Hin as [[= <- <-]|Hin].
    + by rewrite String.eqb_refl.
    + destruct (String.eqb_spec k k') as [->|Hne]; [|auto].
      exfalso. apply Hk'. apply (list_elem_of_fmap_2 fst) in Hin. exact Hin.
Qed.

Lemma alist_get_set k k' v ps :
  alist_get k (alist_set k' v ps) = if String.eqb k k' then Some v else alist_get k ps.
Proof.
  induction ps as [|[k1 v1] ps IH]; simpl.
  - done.
  - destruct (String.eqb_spec k' k1) as [->|Hne]; simpl.
    + destruct (String.eqb_spec k k1); done.
    + destruct (String.eqb_spec k k1) as [->|Hne1].
      * destruct (String.eqb_spec k1 k'); [congruence | done].
      * exact IH.
Qed.

Lemma alist_set_fresh k v ps : k ∉ map fst ps -> alist_set k v ps = ps ++ [(k, v)].
Proof.
  induction ps as [|[k1 v1] ps IH]; simpl; [done|].
  rewrite not_elem_of_cons. intros [Hne Hnin].
  destruct (String.eqb_spec k k1); [done|]. by rewrite IH.
Qed.

Lemma alist_set_keys k v ps :
  map fst (alist_set k v ps) =
  if bool_decide (k ∈ map fst ps) then map fst ps else map fst ps ++ [k].
Proof.
  induction ps as [|[k1 v1] ps IH].
  - case_bool_decide as Hin; [by apply elem_of_nil in Hin | done].
  - cbn [alist_set]. destruct (String.eqb_spec k k1) as [->|Hne].
    + cbn [map fst]. by rewrite bool_decide_eq_true_2 by left.
    + cbn [map fst]. rewrite IH.
      repeat case_bool_decide; try done.
      * exfalso. match goal with H : ¬ _ |- _ => apply H end. by right.
      * exfalso. match goal with H : _ ∈ _ :: _ |- _ => apply elem_of_cons in H as [?|?] end; done.
Qed.

Lemma alist_set_elem_keys k k' v ps :
  k ∈ map fst (alist_set k' v ps) <-> k = k' \/ k ∈ map fst ps.
Proof.
  rewrite alist_set_keys. case_bool_decide as Hin.
  - split; [auto | intros [->|?]; done].
  - rewrite elem_of_app, list_elem_of_singleton. tauto.
Qed.

Lemma alist_set_NoDup k v ps : NoDup (map fst ps) -> NoDup (map fst (alist_set k v ps)).
Proof.
  intros Hnd. rewrite alist_set_keys. case_bool_decide as Hin; [done|].
  apply NoDup_app. split; [done|]. split.
  - intros x Hx Hx'. apply list_elem_of_singleton in Hx' as ->. done.
  - apply NoDup_singleton.
Qed.
End alist.

(** ** Running the monad *)

Lemma bind_Ok {A B} (m : M A) (k : A -> M B) h a h' :
  m h = Ok a h' -> bind m k h = k a h'.
Proof. unfold bind. by intros ->. Qed.

Lemma preserved_refl h : preserved h h.
Proof. by intros l c. Qed.

Lemma preserved_alloc h c : preserved h (h ++ [c]).
Proof. intros l c' Hl. by apply lookup_app_l_Some. Qed.

(** ** Trees of the heap *)

Lemma elem_of_fields_locs l fs :
  l ∈ fields_locs fs <-> exists kt, kt ∈ fs /\ l ∈ locs kt.2.
Proof.
  unfold fields_locs. rewrite list_elem_of_In, in_flat_map.
  split; intros (kt & H1 & H2); exists kt; by rewrite ?list_elem_of_In in *.
Qed.

Lemma fields_locs_app fs1 fs2 : fields_locs (fs1 ++ fs2) = fields_locs fs1 ++ fields_locs fs2.
Proof. unfold fields_locs. by rewrite flat_map_app. Qed.

Lemma reify_prim n h p : reify n h (VPrim p) = Some (TPrim p).
Proof. by destruct n. Qed.

Lemma reify_ref n h l t :
  reify (S n) h (VRef l) = Some t <->
  exists c fs, h !! l = Some c /\ NoDup (map fst (props c)) /\
    fields_rel n h (props c) fs /\ t = TNode l (ckind c) fs.
Proof.
  cbn [reify]. destruct (h !! l) as [c|] eqn:Hl; cbn [mbind option_bind].
  - case_bool_decide as Hnd.
    + destruct (mapM _ (props c)) as [fs|] eqn:Hfs; cbn [mbind option_bind].
      * apply mapM_Some in Hfs. split.
        -- intros [= <-]. exists c, fs. repeat split; try done.
           eapply Forall2_impl; [exact Hfs|]. intros [k v] [k' t'] Hx. cbn in *.
           destruct (reify n h v); cbn in Hx; by simplify_eq.
        -- intros (c' & fs' & [= <-] & _ & Hrel & ->). f_equal. f_equal.
           eapply (Forall2_unique (fun kv kt => (t ← reify n h kv.2; Some (kv.1, t)) = Some kt));
             [exact Hfs | | intros ??? -> [=]; done ].
           eapply Forall2_impl; [exact Hrel|]. intros [k v] [k' t'] [Hk Hx]. cbn in *.
           by rewrite Hx, <- Hk.
      * split; [done|]. intros (c' & fs' & [= <-] & _ & Hrel & ->). exfalso.
        assert (mapM (fun kv => t ← reify n h kv.2; Some (kv.1, t)) (props c) = Some fs') as Hx.
        { apply mapM_Some. eapply Forall2_impl; [exact Hrel|].
          intros [k v] [k' t'] [Hk Hx]. cbn in *. by rewrite Hx, <- Hk. }
        congruence.
    + split; [done|]. intros (c' & fs' & [= <-] & ? & _). done.
  - split; [done|]. intros (c' & fs' & [=] & _).
Qed.

Lemma fields_rel_keys n h ps fs : fields_rel n h ps fs -> map fst fs = map fst ps.
Proof. induction 1 as [|kv kt ps fs [Hk _] _ IH]; simpl; [done|]. by rewrite Hk, IH. Qed.

(** A tree is read from its own objects only. *)
Lemma reify_agree n : forall h h' v t,
  reify n h v = Some t ->
  (forall l, l ∈ locs t -> h' !! l = h !! l) ->
  reify n h' v = Some t.
Proof.
  induction n as [|n IH]; intros h h' [p|l] t Hr Hag.
  - by rewrite reify_prim in *.
  - done.
  - by rewrite reify_prim in *.
  - apply reify_ref in Hr as (c & fs & Hl & Hnd & Hrel & ->).
    apply reify_ref. exists c, fs. repeat split; try done.
    + rewrite Hag; [done | left].
    + assert (forall l', l' ∈ fields_locs fs -> h' !! l' = h !! l') as Hag'.
      { intros l' Hl'. apply Hag. cbn [locs]. right. exact Hl'. }
      clear Hag Hl Hnd. induction Hrel as [|kv kt ps fs [Hk Hx] _ IHrel]; [constructor|].
      constructor.
      * split; [done|]. eapply IH; [exact Hx|]. intros l' Hl'. apply Hag'.
        apply elem_of_fields_locs. exists kt. split; [left | done].
      * apply IHrel. intros l' Hl'. apply Hag'.
        apply elem_of_fields_locs in Hl' as (kt' & ? & ?).
        apply elem_of_fields_locs. exists kt'. split; [by right | done].
Qed.

(** The objects of a tree exist. *)
Lemma reify_locs_lt n : forall h v t l,
  reify n h v = Some t -> l ∈ locs t -> l < length h.
Proof.
  induction n as [|n IH]; intros h [p|l0] t l Hr Hin.
  - rewrite reify_prim in Hr. simplify_eq. by apply elem_of_nil in Hin.
  - done.
  - rewrite reify_prim in Hr. simplify_eq. by apply elem_of_nil in Hin.
  - apply reify_ref in Hr as (c & fs & Hl & Hnd & Hrel & ->).
    cbn [locs] in Hin. apply elem_of_cons in Hin as [->|Hin].
    + by apply lookup_lt_Some in Hl.
    + apply elem_of_fields_locs in Hin as (kt & Hkt & Hin).
      clear Hl Hnd. induction Hrel as [|kv kt' ps fs [Hk Hx] _ IHrel].
      * by apply elem_of_nil in Hkt.
      * apply elem_of_cons in Hkt as [->|Hkt]; [by eapply IH | auto].
Qed.

Lemma reify_preserved n h h' v t :
  preserved h h' -> reify n h v = Some t -> reify n h' v = Some t.
Proof.
  intros Hp Hr. eapply reify_agree; [exact Hr|]. intros l Hl.
  destruct (lookup_lt_is_Some_2 h l) as [c Hc]; [by eapply reify_locs_lt|].
  rewrite Hc. by apply Hp.
Qed.

Lemma reify_mono n : forall m h v t,
  n <= m -> reify n h v = Some t -> reify m h v = Some t.
Proof.
  induction n as [|n IH]; intros m h [p|l] t Hle Hr.
  - by rewrite reify_prim in *.
  - done.
  - by rewrite reify_prim in *.
  - destruct m as [|m]; [lia|].
    apply reify_ref in Hr as (c & fs & Hl & Hnd & Hrel & ->).
    apply reify_ref. exists c, fs. repeat split; try done.
    eapply Forall2_impl; [exact Hrel|]. intros kv kt [Hk Hx]. split; [done|].
    apply IH; [lia | done].
Qed.

Lemma fields_rel_agree n h h' ps fs :
  fields_rel n h ps fs ->
  (forall l, l ∈ fields_locs fs -> h' !! l = h !! l) ->
  fields_rel n h' ps fs.
Proof.
  intros Hrel Hag. induction Hrel as [|kv kt ps fs [Hk Hx] _ IHrel]; [constructor|].
  constructor.
  - split; [done|]. eapply reify_agree; [exact Hx|]. intros l Hl. apply Hag.
    apply elem_of_fields_locs. exists kt. split; [left | done].
  - apply IHrel. intros l Hl. apply Hag.
    apply elem_of_fields_locs in Hl as (kt' & ? & ?).
    apply elem_of_fields_locs. exists kt'. split; [by right | done].
Qed.

Lemma fields_rel_locs_lt n h ps fs l :
  fields_rel n h ps fs -> l ∈ fields_locs fs -> l < length h.
Proof.
  intros Hrel Hin. apply elem_of_fields_locs in Hin as (kt & Hkt & Hin).
  induction Hrel as [|kv kt' ps fs [Hk Hx] _ IHrel].
  - by apply elem_of_nil in Hkt.
  - apply elem_of_cons in Hkt as [->|Hkt]; [by eapply reify_locs_lt | auto].
Qed.

(** ** [deepClone] *)

Lemma set_property_Ok h l c k v :
  h !! l = Some c ->
  set_property l k v h = Ok tt (<[l := Cell (ckind c) (alist_set k v (props c))]> h).
Proof. unfold set_property. by intros ->. Qed.

Lemma get_property_ref h l c k :
  h !! l = Some c ->
  get_property (VRef l) k h = Ok (default (VPrim PUndefined) (alist_get k (props c))) h.
Proof. unfold get_property, bind, deref, ret. by intros ->. Qed.

Section deepClone_loop.
Context (n : nat) (h0 : heap) (l : loc) (c : cell).
Context (IH : forall h v t, reify n h v = Some t ->
                exists v' h', deepClone n v h = Ok v' h' /\ is_clone n h t v' h').
Context (Hl : h0 !! l = Some c) (Hnd : NoDup (map fst (props c))).

Lemma deepClone_loop : forall rest done fr fd pd td h,
  props c = done ++ rest ->
  fields_rel n h0 rest fr ->
  preserved h0 h ->
  h !! (length h0) = Some (Cell (ckind c) pd) ->
  map fst pd = map fst done ->
  fields_rel n h pd td ->
  erase_fields td = erase_fields fd ->
  Forall (fun l' => (length h0) < l') (fields_locs td) ->
  NoDup (fields_locs td) ->
  exists h' pd' td',
    forEach (map fst rest) (clone_key (deepClone n) (VRef l) (length h0)) h = Ok tt h' /\
    preserved h0 h' /\
    h' !! (length h0) = Some (Cell (ckind c) pd') /\
    map fst pd' = map fst (props c) /\
    fields_rel n h' pd' td' /\
    erase_fields td' = erase_fields (fd ++ fr) /\
    Forall (fun l' => (length h0) < l') (fields_locs td') /\
    NoDup (fields_locs td').
Proof.
  induction rest as [|[k v] rest IHrest];
    intros done fr fd pd td h Hprops Hrest Hpres Hlc Hkeys Hpd Her Hfresh Hdis.
  - inversion Hrest; subst. rewrite app_nil_r in *.
    exists h, pd, td. repeat split; try done. by rewrite Hprops.
  - inversion Hrest as [|? [k' t] ? fr' [Hk Hv] Hrest']; subst. cbn in Hk, Hv. subst k'.
    assert ((length h0) < length h) as Hlt by (by apply lookup_lt_Some in Hlc).
    assert (alist_get k (props c) = Some v) as Hget.
    { apply alist_get_elem; [done|]. rewrite Hprops. apply elem_of_app. right. left. }
    destruct (IH h v t) as (v' & h2 & Hclone & Hp2 & t' & Hr' & Her' & Hfr' & Hnd');
      [by eapply reify_preserved|].
    assert (k ∉ map fst pd) as Hk.
    { rewrite Hkeys. rewrite Hprops, map_app in Hnd. apply NoDup_app in Hnd as (_ & Hd & _).
      intros Hin. apply (Hd k Hin). left. }
    set (h3 := <[(length h0) := Cell (ckind c) (pd ++ [(k, v')])]> h2).
    assert (forall l', l' ∈ fields_locs td -> h3 !! l' = h !! l') as Hag.
    { intros l' Hl'. assert ((length h0) < l') by (by eapply Forall_forall in Hfresh).
      unfold h3. rewrite list_lookup_insert_ne by lia.
      destruct (lookup_lt_is_Some_2 h l') as [c' Hc']; [by eapply fields_rel_locs_lt|].
      rewrite Hc'. by apply Hp2. }
    assert (forall l', l' ∈ locs t' -> h3 !! l' = h2 !! l') as Hag'.
    { intros l' Hl'. assert (length h <= l') by (by eapply Forall_forall in Hfr').
      unfold h3. rewrite list_lookup_insert_ne by lia. done. }
    destruct (IHrest (done ++ [(k, v)]) fr' (fd ++ [(k, t)]) (pd ++ [(k, v')])
                (td ++ [(k, t')]) h3) as (h' & pd' & td' & Hloop & Hrest2).
    + by rewrite <- app_assoc.
    + done.
    + intros l0 c0 Hl0. unfold h3.
      rewrite list_lookup_insert_ne by (apply lookup_lt_Some in Hl0; lia).
      apply Hp2, Hpres, Hl0.
    + unfold h3. apply list_lookup_insert_eq. apply Hp2 in Hlc.
      by apply lookup_lt_Some in Hlc.
    + by rewrite !map_app, Hkeys.
    + apply Forall2_app.
      * by eapply fields_rel_agree.
      * constructor; [|constructor]. split; [done|]. cbn. by eapply reify_agree.
    + unfold erase_fields in *. rewrite !map_app, Her. cbn. by rewrite Her'.
    + rewrite fields_locs_app. apply Forall_app. split; [done|].
      unfold fields_locs. cbn. rewrite app_nil_r.
      eapply Forall_impl; [exact Hfr'|]. cbn. lia.
    + rewrite fields_locs_app. apply NoDup_app. repeat split; [done | | ].
      * intros l' Hl1 Hl2. unfold fields_locs in Hl2. cbn in Hl2. rewrite app_nil_r in Hl2.
        assert (l' < length h) by (by eapply fields_rel_locs_lt).
        assert (length h <= l') by (by eapply Forall_forall in Hfr'). lia.
      * unfold fields_locs. cbn. by rewrite app_nil_r.
    + exists h', pd', td'. split; [|by rewrite <- app_assoc in Hrest2].
      cbn [map fst forEach]. unfold bind at 1. unfold clone_key at 1.
      erewrite bind_Ok; [|apply get_property_ref; by apply Hpres].
      rewrite Hget. cbn [default]. erewrite bind_Ok; [|exact Hclone].
      erewrite set_property_Ok; [|by apply Hp2]. cbn [ckind props].
      rewrite alist_set_fresh by done. exact Hloop.
Qed.
End deepClone_loop.

(** With enough fuel for the depth of the value, [deepClone] returns a
    clone. *)
Lemma deepClone_spec n : forall h v t,
  reify n h v = Some t ->
  exists v' h', deepClone n v h = Ok v' h' /\ is_clone n h t v' h'.
Proof.
  induction n as [|n IH]; intros h [p|l] t Hr.
  - rewrite reify_prim in Hr. simplify_eq. exists (VPrim p), h.
    split; [done|]. split; [apply preserved_refl|]. exists (TPrim p).
    repeat split; try done; constructor.
  - done.
  - rewrite reify_prim in Hr. simplify_eq. exists (VPrim p), h.
    split; [done|]. split; [apply preserved_refl|]. exists (TPrim p).
    repeat split; try done; constructor.
  - apply reify_ref in Hr as (c & fs & Hl & Hnd & Hrel & ->).
    destruct (deepClone_loop n h l c IH Hl Hnd (props c) [] fs [] [] [] (h ++ [Cell (ckind c) []]))
      as (h' & pd' & td' & Hloop & Hpres & Hlc & Hkeys & Hpd & Her & Hfresh & Hdis);
      [ done | done | apply preserved_alloc
      | by rewrite lookup_app_r, Nat.sub_diag by lia
      | done | constructor | done | constructor | constructor | ].
    exists (VRef (length h)), h'. split.
      * cbn [deepClone]. unfold bind at 1. unfold deref at 1. rewrite Hl.
        unfold bind at 1. unfold alloc at 1. unfold bind at 1.
        rewrite Hloop. done.
      * split; [done|]. exists (TNode (length h) (ckind c) td'). repeat split.
        -- apply reify_ref. exists (Cell (ckind c) pd'), td'. cbn [props ckind].
           repeat split; try done. by rewrite Hkeys.
        -- cbn [erase]. f_equal. exact Her.
        -- cbn [locs]. constructor; [done|].
           eapply Forall_impl; [exact Hfresh|]. cbn. lia.
        -- cbn [locs]. constructor; [|done]. intros Hin.
           eapply Forall_forall in Hfresh; [|exact Hin]. lia.
Qed.

(** [deepClone] never throws. *)
Lemma deepClone_no_throw n : forall v h e, deepClone n v h <> Throw e.
Proof.
  induction n as [|n IH]; intros [p|l] h e; try done.
  cbn [deepClone]. unfold bind at 1, deref at 1. destruct (h !! l) as [c|]; [|done].
  unfold bind at 1, alloc at 1. unfold bind at 1.
  assert (forall ks h1 e',
            forEach ks (clone_key (deepClone n) (VRef l) (length h)) h1 <> Throw e') as Hloop.
  { induction ks as [|k ks IHks]; intros h1 e'; [done|].
    cbn [forEach]. unfold bind at 1. unfold clone_key at 1. unfold bind at 1.
    unfold get_property, bind at 1, deref. destruct (h1 !! l) as [c1|]; [|done].
    cbn [ret]. unfold bind at 1.
    destruct (deepClone n _ h1) as [v' h2| | |] eqn:Hc; try done.
    - unfold set_property. destruct (h2 !! length h); [apply IHks | done].
    - by apply IH in Hc. }
  destruct (forEach _ _ _) as [[] h2| | |] eqn:Hf; try done.
  by apply Hloop in Hf.
Qed.

(** ** [mergeObject] *)

Lemma merge_json_node ko fo kr fr :
  merge_json (JNode ko fo) (JNode kr fr) = JNode ko (fold_left merge_step fr fo).
Proof.
  cbn [merge_json]. f_equal. revert fo.
  induction fr as [|[k v] fr IH]; intros fo; [done|]. cbn [fold_left]. by rewrite IH.
Qed.

Section alist_more.
Context {V : Type}.
Implicit Types (ps : list (string * V)) (k : string) (v : V).

Lemma alist_set_same k v ps : alist_get k ps = Some v -> alist_set k v ps = ps.
Proof.
  induction ps as [|[k1 v1] ps IH]; simpl; [done|].
  destruct (String.eqb_spec k k1) as [->|Hne].
  - by intros [= ->].
  - intros H. by rewrite IH.
Qed.

Lemma elem_of_alist_set kv k v ps : kv ∈ alist_set k v ps -> kv = (k, v) \/ kv ∈ ps.
Proof.
  induction ps as [|[k1 v1] ps IH]; simpl.
  - intros H. apply list_elem_of_singleton in H. by left.
  - destruct (String.eqb_spec k k1) as [->|Hne]; intros H.
    + apply elem_of_cons in H as [->|H]; [by left | right; by right].
    + apply elem_of_cons in H as [->|H]; [right; left|].
      destruct (IH H) as [->|?]; [by left | right; by right].
Qed.
End alist_more.

Lemma erase_fields_set k t ts :
  erase_fields (alist_set k t ts) = alist_set k (erase t) (erase_fields ts).
Proof.
  induction ts as [|[k1 t1] ts IH]; simpl; [done|].
  destruct (String.eqb k k1); simpl; [done|]. by rewrite IH.
Qed.

Lemma alist_get_erase k ts : alist_get k (erase_fields ts) = erase <$> alist_get k ts.
Proof.
  induction ts as [|[k1 t1] ts IH]; simpl; [done|]. destruct (String.eqb k k1); done.
Qed.

Lemma elem_of_fields_locs_set l k t ts :
  l ∈ fields_locs (alist_set k t ts) -> l ∈ locs t \/ l ∈ fields_locs ts.
Proof.
  intros H. apply elem_of_fields_locs in H as ([k' t'] & Hin & Hl).
  apply elem_of_alist_set in Hin as [[= -> ->]|Hin]; [by left|].
  right. apply elem_of_fields_locs. by exists (k', t').
Qed.

Lemma fields_rel_get n h ps ts k :
  fields_rel n h ps ts ->
  match alist_get k ps with
  | Some v => exists t, alist_get k ts = Some t /\ reify n h v = Some t
  | None => alist_get k ts = None
  end.
Proof.
  induction 1 as [|[k1 v1] [k2 t2] ps ts [Hk Hx] _ IH]; simpl in *; [done|]. subst k2.
  destruct (String.eqb k k1); [by exists t2 | done].
Qed.

(** Writing one field of an object whose other fields are left alone. *)
Lemma fields_rel_update n h h' ps ts k v t :
  NoDup (map fst ts) ->
  fields_rel n h ps ts ->
  (forall k' t' l, (k', t') ∈ ts -> k' <> k -> l ∈ locs t' -> h' !! l = h !! l) ->
  reify n h' v = Some t ->
  fields_rel n h' (alist_set k v ps) (alist_set k t ts).
Proof.
  intros Hnd Hrel. induction Hrel as [|[k1 v1] [k2 t2] ps ts [Hk Hx] Hrel IH];
    intros Hag Hv; simpl in *.
  - constructor; [done | constructor].
  - subst k2. apply NoDup_cons in Hnd as [Hk1 Hnd].
    destruct (String.eqb_spec k k1) as [->|Hne].
    + constructor; [done|].
      eapply fields_rel_agree; [exact Hrel|]. intros l Hl.
      apply elem_of_fields_locs in Hl as ([k' t'] & Hin & Hl). cbn in Hl.
      apply (Hag k' t' l); [by right | | done].
      intros ->. apply Hk1. apply (list_elem_of_fmap_2 fst) in Hin. exact Hin.
    + constructor.
      * split; [done|]. cbn. eapply reify_agree; [exact Hx|]. intros l Hl.
        eapply (Hag k1 t2); [left | done | done].
      * apply IH; [done | | done]. intros k' t' l Hin. apply (Hag k' t' l). by right.
Qed.

Lemma getType_reify n h v t :
  reify n h v = Some t ->
  exists s, getType v h = Ok s h /\ String.eqb s "Object" = is_plain (erase t).
Proof.
  destruct v as [p|l]; intros Hr.
  - rewrite reify_prim in Hr. simplify_eq. destruct p; eexists; split; done.
  - destruct n as [|n]; [done|].
    apply reify_ref in Hr as (c & fs & Hl & _ & _ & ->).
    unfold getType, bind, deref. rewrite Hl. cbn [ret erase is_plain].
    destruct (ckind c); eexists; split; done.
Qed.

Lemma is_plain_reify n h v t :
  reify n h v = Some t -> is_plain (erase t) = true ->
  exists l fs, v = VRef l /\ t = TNode l KObject fs.
Proof.
  destruct v as [p|l]; intros Hr Hp.
  - rewrite reify_prim in Hr. by simplify_eq.
  - destruct n as [|n]; [done|].
    apply reify_ref in Hr as (c & fs & Hl & _ & _ & ->). cbn in Hp.
    destruct (ckind c); [|done]. by exists l, fs.
Qed.

(** The subtrees under two keys of a tree without sharing are disjoint. *)
Lemma fields_locs_disjoint fs k t k' t' l :
  NoDup (fields_locs fs) -> (k, t) ∈ fs -> (k', t') ∈ fs -> k <> k' ->
  l ∈ locs t -> l ∉ locs t'.
Proof.
  induction fs as [|[k1 t1] fs IH]; intros Hnd Hin Hin' Hne Hl Hl'.
  - by apply elem_of_nil in Hin.
  - change (fields_locs ((k1, t1) :: fs)) with (locs t1 ++ fields_locs fs) in Hnd.
    apply NoDup_app in Hnd as (Hnd1 & Hd & Hnd2).
    apply elem_of_cons in Hin as [[= -> ->]|Hin];
      apply elem_of_cons in Hin' as [[= -> ->]|Hin'].
    + done.
    + apply (Hd l Hl). apply elem_of_fields_locs. by exists (k', t').
    + apply (Hd l Hl'). apply elem_of_fields_locs. by exists (k, t).
    + by eapply (IH Hnd2 Hin Hin').
Qed.

Lemma fields_locs_NoDup fs k t :
  NoDup (fields_locs fs) -> (k, t) ∈ fs -> NoDup (locs t).
Proof.
  induction fs as [|[k1 t1] fs IH]; intros Hnd Hin.
  - by apply elem_of_nil in Hin.
  - change (fields_locs ((k1, t1) :: fs)) with (locs t1 ++ fields_locs fs) in Hnd.
    apply NoDup_app in Hnd as (Hnd1 & Hd & Hnd2).
    apply elem_of_cons in Hin as [[= -> ->]|Hin]; [done | auto].
Qed.

Section merge_key.
Context (f : nat) (o r : loc) (ko : kind) (cr : cell).
Context (IH : forall h o r to tr,
            reify f h (VRef o) = Some to -> NoDup (locs to) ->
            reify f h (VRef r) = Some tr ->
            (forall l, l ∈ locs to -> l ∉ locs tr) ->
            merged f h o to tr (mergeObject f (VRef o) (VRef r) true h)).

Lemma merge_body_spec k hi pso v tv otx :
  hi !! o = Some (Cell ko pso) ->
  hi !! r = Some cr ->
  alist_get k (props cr) = Some v ->
  reify f hi v = Some tv ->
  o ∉ locs tv ->
  match alist_get k pso with
  | Some x => exists tx, otx = Some tx /\ reify f hi x = Some tx /\ NoDup (locs tx) /\
                (o ∉ locs tx) /\ (forall l, l ∈ locs tx -> l ∉ locs tv)
  | None => otx = None
  end ->
  exists h1 vnew tnew,
    merge_key (mergeObject f) o (VRef r) k hi = Ok tt h1 /\
    length hi <= length h1 /\
    (forall l, l < length hi -> l <> o -> l ∉ olocs otx -> h1 !! l = hi !! l) /\
    h1 !! o = Some (Cell ko (alist_set k vnew pso)) /\
    reify f h1 vnew = Some tnew /\
    erase tnew = merge_value (erase <$> otx) (erase tv) /\
    (forall l, l ∈ locs tnew -> l ∈ olocs otx \/ l ∈ locs tv \/ length hi <= l).
Proof.
  intros Ho Hr Hget Hv Hov Hx.
  assert (o < length hi) as Holt by (by apply lookup_lt_Some in Ho).
  destruct (getType_reify _ _ _ _ Hv) as (sv & Htv & Hsv).
  assert (merge_key (mergeObject f) o (VRef r) k hi =
          match alist_get k pso with
          | Some x =>
              (let* tv := getType v in
               let* tx := getType x in
               if String.eqb tv "Object" && String.eqb tx "Object"
               then mergeObject f x v true ;; ret tt
               else set_property o k v) hi
          | None => _mergeInsert (mergeObject f) o k v hi
          end) as Hbody.
  { unfold merge_key. rewrite (bind_Ok _ _ _ _ _ (get_property_ref _ _ _ k Hr)).
    rewrite Hget. cbn [default]. unfold id.
    unfold bind at 1, hasOwnProperty at 1, bind at 1, deref at 1. rewrite Ho.
    cbn [props ret]. destruct (alist_get k pso) as [x|] eqn:Hx'; [|done].
    unfold _mergeUpdate. rewrite (bind_Ok _ _ _ _ _ (get_property_ref _ _ _ k Ho)).
    cbn [props]. by rewrite Hx'. }
  rewrite Hbody. clear Hbody.
  assert (forall vnew tnew,
    vnew = v -> tnew = tv ->
    set_property o k v hi = Ok tt (<[o := Cell ko (alist_set k vnew pso)]> hi) /\
    length hi <= length (<[o := Cell ko (alist_set k vnew pso)]> hi) /\
    (forall l, l < length hi -> l <> o -> l ∉ olocs otx ->
       <[o := Cell ko (alist_set k vnew pso)]> hi !! l = hi !! l) /\
    <[o := Cell ko (alist_set k vnew pso)]> hi !! o = Some (Cell ko (alist_set k vnew pso)) /\
    reify f (<[o := Cell ko (alist_set k vnew pso)]> hi) vnew = Some tnew /\
    (forall l, l ∈ locs tnew -> l ∈ olocs otx \/ l ∈ locs tv \/ length hi <= l)) as Hset.
  { intros vnew tnew -> ->. repeat split.
    - by rewrite (set_property_Ok _ _ _ _ _ Ho).
    - by rewrite length_insert.
    - intros l _ Hne _. by rewrite list_lookup_insert_ne.
    - by apply list_lookup_insert_eq.
    - eapply reify_agree; [exact Hv|]. intros l Hl.
      rewrite list_lookup_insert_ne; [done|]. intros <-. done.
    - intros l Hl. right. by left. }
  destruct (alist_get k pso) as [x|] eqn:Hgx.
  - destruct Hx as (tx & -> & Hxr & Hndx & Hox & Hdis).
    destruct (getType_reify _ _ _ _ Hxr) as (sx & Htx & Hsx).
    erewrite bind_Ok; [|exact Htv]. erewrite bind_Ok; [|exact Htx].
    rewrite Hsv, Hsx. cbn [fmap option_fmap option_map merge_value olocs].
    destruct (is_plain (erase tv) && is_plain (erase tx)) eqn:Hpl.
    + apply andb_prop in Hpl as [Hpv Hpx].
      destruct (is_plain_reify _ _ _ _ Hv Hpv) as (lv & fv & -> & ->).
      destruct (is_plain_reify _ _ _ _ Hxr Hpx) as (lx & fx & -> & ->).
      destruct (IH hi lx lv _ _ Hxr Hndx Hv Hdis)
        as (h1 & t' & Hout & Hlen & Hframe & Hr' & Her & Hlocs).
      exists h1, (VRef lx), t'. repeat split; try done.
      * unfold bind. by rewrite Hout.
      * intros l Hl _ Hnin. by apply Hframe.
      * rewrite alist_set_same by done. rewrite Hframe; done.
    + destruct (Hset v tv eq_refl eq_refl) as (H1 & H2 & H3 & H4 & H5 & H6).
      exists (<[o := Cell ko (alist_set k v pso)]> hi), v, tv. repeat split; done.
  - subst otx. unfold _mergeInsert. erewrite bind_Ok; [|exact Htv].
    rewrite Hsv. cbn [fmap option_fmap option_map merge_value olocs].
    destruct (is_plain (erase tv)) eqn:Hpv.
    + destruct (is_plain_reify _ _ _ _ Hv Hpv) as (lv & fv & -> & ->).
      destruct f as [|f']; [done|].
      set (e := length hi). set (ha := hi ++ [empty_object]).
      assert (reify (S f') ha (VRef e) = Some (TNode e KObject [])) as Hre.
      { apply reify_ref. exists empty_object, []. repeat split.
        - unfold ha, e. by rewrite lookup_app_r, Nat.sub_diag by lia.
        - constructor.
        - constructor. }
      assert (forall l, l ∈ locs (TNode lv KObject fv) -> l < e) as Hvlt.
      { intros l Hl. by eapply reify_locs_lt. }
      destruct (IH ha e lv (TNode e KObject []) (TNode lv KObject fv))
        as (h1 & t' & Hout & Hlen & Hframe & Hr' & Her & Hlocs).
      { done. }
      { cbn. apply NoDup_singleton. }
      { eapply reify_preserved; [apply preserved_alloc | done]. }
      { intros l Hl Hl'. cbn in Hl. apply list_elem_of_singleton in Hl as ->.
        apply Hvlt in Hl'. lia. }
      assert (length ha = S e) as Hlena by (unfold ha; rewrite length_app; cbn; lia).
      assert (h1 !! o = Some (Cell ko pso)) as Ho1.
      { rewrite Hframe; [| lia |].
        - unfold ha. by rewrite lookup_app_l by lia.
        - cbn. intros Hin. apply list_elem_of_singleton in Hin. lia. }
      assert (o ∉ locs t') as Hot'.
      { intros Hin. apply Hlocs in Hin as [Hin|[Hin|Hin]].
        - cbn in Hin. apply list_elem_of_singleton in Hin. lia.
        - done.
        - lia. }
      exists (<[o := Cell ko (alist_set k (VRef e) pso)]> h1), (VRef e), t'.
      repeat split.
      * unfold bind at 1, new_object, bind at 1, alloc at 1, ret at 1.
        fold e. fold ha. unfold bind at 1. rewrite Hout.
        by rewrite (set_property_Ok _ _ _ _ _ Ho1).
      * rewrite length_insert. lia.
      * intros l Hl Hne _. rewrite list_lookup_insert_ne by done.
        rewrite Hframe; [| lia |].
        -- unfold ha. by rewrite lookup_app_l by lia.
        -- cbn. intros Hin. apply list_elem_of_singleton in Hin. unfold e in Hin. lia.
      * apply list_lookup_insert_eq. by apply lookup_lt_Some in Ho1.
      * eapply reify_agree; [exact Hr'|]. intros l Hl.
        rewrite list_lookup_insert_ne; [done|]. intros <-. done.
      * exact Her.
      * intros l Hl. apply Hlocs in Hl as [Hl|[Hl|Hl]].
        -- cbn in Hl. apply list_elem_of_singleton in Hl as ->. right. right. done.
        -- right. by left.
        -- right. right. lia.
    + destruct (Hset v tv eq_refl eq_refl) as (H1 & H2 & H3 & H4 & H5 & H6).
      exists (<[o := Cell ko (alist_set k v pso)]> hi), v, tv. repeat split; done.
Qed.
End merge_key.

Section merge_loop.
Context (f : nat) (h : heap) (o r : loc) (co cr : cell) (fso fsr : list (string * tree)).
Context (IH : forall h o r to tr,
            reify f h (VRef o) = Some to -> NoDup (locs to) ->
            reify f h (VRef r) = Some tr ->
            (forall l, l ∈ locs to -> l ∉ locs tr) ->
            merged f h o to tr (mergeObject f (VRef o) (VRef r) true h)).
Context (Ho : h !! o = Some co) (Hr : h !! r = Some cr).
Context (Hndr : NoDup (map fst (props cr))).
Context (Hfo : fields_rel f h (props co) fso) (Hfr : fields_rel f h (props cr) fsr).
Context (Hnd : NoDup (o :: fields_locs fso)).
Context (Hdisj : forall l, l ∈ o :: fields_locs fso -> l ∉ r :: fields_locs fsr).

Lemma merge_loop : forall rest done fr fd pso ts hi,
  props cr = done ++ rest -> fsr = fd ++ fr -> fields_rel f h rest fr ->
  length h <= length hi ->
  (forall l, l < length h -> l ∉ o :: fields_locs fso -> hi !! l = h !! l) ->
  hi !! o = Some (Cell (ckind co) pso) ->
  NoDup (map fst pso) ->
  fields_rel f hi pso ts ->
  (forall k, k ∈ map fst rest ->
     alist_get k pso = alist_get k (props co) /\ alist_get k ts = alist_get k fso) ->
  (forall k t l, (k, t) ∈ ts -> l ∈ locs t -> sep o fso (map fst rest) k l) ->
  (forall l, l ∈ fields_locs ts ->
     l ∈ fields_locs fso \/ l ∈ fields_locs fsr \/ length h <= l) ->
  exists h' pso' ts',
    forEach (map fst rest) (merge_key (mergeObject f) o (VRef r)) hi = Ok tt h' /\
    length h <= length h' /\
    (forall l, l < length h -> l ∉ o :: fields_locs fso -> h' !! l = h !! l) /\
    h' !! o = Some (Cell (ckind co) pso') /\
    NoDup (map fst pso') /\
    fields_rel f h' pso' ts' /\
    erase_fields ts' = fold_left merge_step (erase_fields fr) (erase_fields ts) /\
    (forall l, l ∈ fields_locs ts' ->
       l ∈ fields_locs fso \/ l ∈ fields_locs fsr \/ length h <= l).
Proof.
  assert (o < length h) as Holt by (by apply lookup_lt_Some in Ho).
  assert (o ∉ fields_locs fso) as Hofso by (by apply NoDup_cons in Hnd as [? _]).
  assert (NoDup (fields_locs fso)) as Hndf by (by apply NoDup_cons in Hnd as [_ ?]).
  assert (forall l, l ∈ r :: fields_locs fsr -> l ∉ o :: fields_locs fso) as Hdisj'.
  { intros l Hl Hl'. by apply (Hdisj l). }
  induction rest as [|[k v] rest IHrest];
    intros done fr fd pso ts hi Hprops Hfsr Hrest Hlen Hframe Hoi Hndp Hrel HI1 HI2 HI3.
  - inversion Hrest; subst. exists hi, pso, ts. repeat split; done.
  - inversion Hrest as [|? [k' tv] ? fr' [Hk Hv] Hrest']; subst. cbn in Hk, Hv. subst k'.
    assert (hi !! r = Some cr) as Hri.
    { rewrite Hframe; [done | by apply lookup_lt_Some in Hr | apply Hdisj'; left]. }
    assert (alist_get k (props cr) = Some v) as Hget.
    { apply alist_get_elem; [done|]. rewrite Hprops. apply elem_of_app. right. left. }
    assert (forall l, l ∈ locs tv -> l ∈ fields_locs (fd ++ (k, tv) :: fr')) as Htvsub.
    { intros l Hl. apply elem_of_fields_locs. exists (k, tv). split; [|done].
      apply elem_of_app. right. left. }
    assert (reify f hi v = Some tv) as Hvi.
    { eapply reify_agree; [exact Hv|]. intros l Hl. apply Hframe.
      - by eapply reify_locs_lt.
      - apply Hdisj'. right. by apply Htvsub. }
    assert (o ∉ locs tv) as Hotv.
    { intros Hin. apply (Hdisj o); [left | right; by apply Htvsub]. }
    destruct (HI1 k) as [HI1p HI1t]; [left|].
    pose proof (fields_rel_get _ _ _ _ k Hrel) as Hgk.
    assert (forall tx, alist_get k ts = Some tx -> (k, tx) ∈ fso) as Htxin.
    { intros tx Htx. rewrite HI1t in Htx. by apply alist_get_Some_elem. }
    assert (forall tx l, alist_get k ts = Some tx -> l ∈ locs tx -> l ∈ fields_locs fso)
      as Htxsub.
    { intros tx l Htx Hl. apply elem_of_fields_locs. exists (k, tx). split; [auto | done]. }
    destruct (merge_body_spec f o r (ckind co) cr IH k hi pso v tv (alist_get k ts))
      as (h1 & vnew & tnew & Hbody & Hlen1 & Hframe1 & Ho1 & Hrnew & Hernew & Hlnew);
      [done | done | done | done | done | |].
    { destruct (alist_get k pso) as [x|]; [|done].
      destruct Hgk as (tx & Htx & Hxr). exists tx. repeat split; try done.
      - eapply fields_locs_NoDup; [exact Hndf | by apply Htxin].
      - intros Hin. apply Hofso. by eapply Htxsub.
      - intros l Hl Hl'. apply (Hdisj l); [right; by eapply Htxsub | right; by apply Htvsub]. }
    assert (forall l, l ∈ olocs (alist_get k ts) -> l ∈ fields_locs fso) as Hosub.
    { intros l Hl. destruct (alist_get k ts) as [tx|] eqn:Htx; [by eapply Htxsub|].
      by apply elem_of_nil in Hl. }
    assert (forall k', k' ∈ map fst rest -> k' <> k) as Hrestne.
    { intros k' Hin ->. rewrite Hprops, map_app in Hndr.
      apply NoDup_app in Hndr as (_ & _ & Hndr). cbn in Hndr.
      by apply NoDup_cons in Hndr as [? _]. }
    destruct (IHrest (done ++ [(k, v)]) fr' (fd ++ [(k, tv)])
                (alist_set k vnew pso) (alist_set k tnew ts) h1)
      as (h' & pso' & ts' & Hloop & Hlen' & Hframe' & Ho' & Hndp' & Hrel' & Her' & HI3').
    + by rewrite <- app_assoc.
    + by rewrite <- app_assoc.
    + done.
    + lia.
    + intros l Hl Hnin. rewrite Hframe1; [by apply Hframe | lia | |].
      * intros ->. apply Hnin. left.
      * intros Hin. apply Hnin. right. by apply Hosub.
    + done.
    + by apply alist_set_NoDup.
    + apply (fields_rel_update _ hi); [| done | | done].
      * rewrite (fields_rel_keys _ _ _ _ Hrel). done.
      * intros k' t' l Hin Hne Hl. destruct (HI2 k' t' l Hin Hl) as [Hlo Hsep].
        apply Hframe1; [| done |].
        -- eapply fields_rel_locs_lt; [exact Hrel|].
           apply elem_of_fields_locs. by exists (k', t').
        -- destruct (alist_get k ts) as [tx|] eqn:Htx; [|apply not_elem_of_nil].
           cbn. apply (Hsep k tx); [left | done | by rewrite <- HI1t].
    + intros k' Hin. rewrite !alist_get_set.
      destruct (String.eqb_spec k' k) as [->|Hne]; [by apply Hrestne in Hin|].
      apply HI1. by right.
    + intros k' t' l Hin Hl. apply elem_of_alist_set in Hin as [[= -> ->]|Hin].
      * apply Hlnew in Hl as [Hl|[Hl|Hl]].
        -- split; [intros ->; by apply Hofso, Hosub|].
           intros k' t' Hk' Hne Hgt'.
           destruct (alist_get k ts) as [tx|] eqn:Htx; [|by apply elem_of_nil in Hl].
           cbn in Hl. eapply (fields_locs_disjoint fso k tx k' t'); try done.
           ++ by apply Htxin.
           ++ by apply alist_get_Some_elem.
        -- assert (l ∉ o :: fields_locs fso) as Hn
             by (apply Hdisj'; right; by apply Htvsub).
           split; [intros ->; apply Hn; left|].
           intros k' t' Hk' Hne Hgt' Hin. apply Hn. right.
           apply elem_of_fields_locs. exists (k', t'). split; [|done].
           by apply alist_get_Some_elem.
        -- split; [lia|]. intros k' t' Hk' Hne Hgt' Hin.
           assert (l < length h); [|lia].
           eapply fields_rel_locs_lt; [exact Hfo|].
           apply elem_of_fields_locs. exists (k', t'). split; [|done].
           by apply alist_get_Some_elem.
      * destruct (HI2 k' t' l Hin Hl) as [Hlo Hsep]. split; [done|].
        intros k'' t'' Hk'' Hne Hgt''. apply (Hsep k'' t''); [by right | done | done].
    + intros l Hl. apply elem_of_fields_locs_set in Hl as [Hl|Hl]; [|by apply HI3].
      apply Hlnew in Hl as [Hl|[Hl|Hl]].
      * left. by apply Hosub.
      * right. left. by apply Htvsub.
      * right. right. lia.
    + exists h', pso', ts'. repeat split; try done.
      * cbn [map fst forEach]. unfold bind. by rewrite Hbody.
      * rewrite Her', erase_fields_set, Hernew, <- alist_get_erase. done.
Qed.
End merge_loop.

(** With enough fuel for the depth of both objects, merging [r] in place
    into an object [o] that shares nothing, neither within itself nor with
    [r], succeeds. *)
Lemma mergeObject_inplace m : forall h o r to tr,
  reify m h (VRef o) = Some to -> NoDup (locs to) ->
  reify m h (VRef r) = Some tr ->
  (forall l, l ∈ locs to -> l ∉ locs tr) ->
  merged m h o to tr (mergeObject m (VRef o) (VRef r) true h).
Proof.
  induction m as [|f IH]; intros h o r to tr Hto Hnd Htr Hdisj; [done|].
  apply reify_ref in Hto as (co & fso & Ho & Hndo & Hfo & ->).
  apply reify_ref in Htr as (cr & fsr & Hr & Hndr & Hfr & ->).
  cbn [locs] in Hnd, Hdisj.
  assert (NoDup (fields_locs fso)) as Hndf by (by apply NoDup_cons in Hnd as [_ ?]).
  assert (o ∉ fields_locs fso) as Hofso by (by apply NoDup_cons in Hnd as [? _]).
  destruct (merge_loop f h o r co cr fso fsr IH Ho Hr Hndr Hfo Hfr Hnd Hdisj
              (props cr) [] fsr [] (props co) fso h)
    as (h' & pso' & ts' & Hloop & Hlen & Hframe & Ho' & Hndp & Hrel & Her & Hlocs);
    try done.
  - by destruct co.
  - intros k t l Hin Hl. split.
    + intros ->. apply Hofso. apply elem_of_fields_locs. by exists (k, t).
    + intros k' t' _ Hne Hgt'. eapply (fields_locs_disjoint fso k t k' t'); try done.
      by apply alist_get_Some_elem.
  - intros l Hl. by left.
  - exists h', (TNode o (ckind co) ts'). repeat split; try done.
    + cbn [mergeObject truthy]. unfold bind at 1, ret at 1. unfold bind at 1, ret at 1.
      unfold bind at 1, Object_keys, bind at 1, Object_entries, bind at 1, deref at 1.
      rewrite Hr. cbn [ret]. unfold bind at 1.
      by rewrite Hloop.
    + apply reify_ref. exists (Cell (ckind co) pso'), ts'. by repeat split.
    + cbn [erase]. rewrite merge_json_node. f_equal. exact Her.
    + intros l Hl. cbn [locs] in *. apply elem_of_cons in Hl as [->|Hl]; [left; left|].
      apply Hlocs in Hl as [Hl|[Hl|Hl]]; [left; by right | right; left; by right | by right; right].
Qed.

Lemma mergeObject_copy_unfold f d r o h h1 :
  deepClone (S f) (VRef d) h = Ok (VRef o) h1 ->
  mergeObject (S f) (VRef d) (VRef r) false h = mergeObject (S f) (VRef o) (VRef r) true h1.
Proof.
  intros Hc. cbn [mergeObject truthy]. unfold bind at 1, ret at 1. unfold bind at 1.
  rewrite Hc. unfold bind at 4, ret at 3. unfold bind at 4, ret at 3. done.
Qed.

Lemma mergeObject_null f d h :
  mergeObject (S f) (VRef d) (VPrim PNull) false h =
  mergeObject (S f) (VRef d) (VRef (length h)) false (h ++ [empty_object]).
Proof. done. Qed.

(** With [inplace] unset, [mergeObject] leaves every existing object as it
    is and returns an object that holds the merge of the two contents. *)
Lemma mergeObject_copy m h d r td tr :
  reify m h (VRef d) = Some td ->
  reify m h (VRef r) = Some tr ->
  exists o h' t',
    mergeObject m (VRef d) (VRef r) false h = Ok (VRef o) h' /\
    length h <= o /\
    preserved h h' /\
    reify m h' (VRef o) = Some t' /\
    erase t' = merge_json (erase td) (erase tr).
Proof.
  intros Hd Hr. destruct m as [|f]; [done|].
  destruct (deepClone_spec _ _ _ _ Hd) as (c & h1 & Hc & Hp1 & to & Hto & Her & Hfresh & Hnd).
  assert (exists o, c = VRef o) as [o ->].
  { destruct c as [p|o]; [|by exists o]. rewrite reify_prim in Hto. simplify_eq.
    apply reify_ref in Hd as (? & ? & _ & _ & _ & ->). done. }
  destruct (mergeObject_inplace (S f) h1 o r to tr)
    as (h' & t' & Hout & Hlen & Hframe & Hr' & Her' & Hlocs); try done.
  - by eapply reify_preserved.
  - intros l Hl Hl'. eapply Forall_forall in Hfresh; [|exact Hl].
    eapply reify_locs_lt in Hl'; [|exact Hr]. lia.
  - exists o, h', t'. repeat split; try done.
    + by rewrite (mergeObject_copy_unfold _ _ _ _ _ _ Hc).
    + apply reify_ref in Hto as (? & ? & _ & _ & _ & ->).
      apply Forall_cons in Hfresh as [? _]. done.
    + intros l c Hl. rewrite Hframe.
      * by apply Hp1.
      * apply Hp1 in Hl. by apply lookup_lt_Some in Hl.
      * intros Hin. eapply Forall_forall in Hfresh; [|exact Hin].
        apply lookup_lt_Some in Hl. lia.
    + by rewrite Her', Her.
Qed.

(** [mergeObject] throws only when one side is not an object. *)
Lemma mergeObject_prim_throws m p other inplace h :
  forall v h', mergeObject m (VPrim p) other inplace h <> Ok v h'.
Proof.
  intros v h'. destruct m as [|f]; [done|]. cbn [mergeObject].
  unfold bind at 1. destruct (truthy other).
  - cbn [ret]. by destruct other.
  - unfold new_object, bind, alloc, ret. done.
Qed.

(** ** The merge on contents: the other side wins *)

Lemma merge_fold_get k fr : forall fo,
  NoDup (map fst fr) ->
  alist_get k (fold_left merge_step fr fo) =
  match alist_get k fr with
  | Some v => Some (merge_value (alist_get k fo) v)
  | None => alist_get k fo
  end.
Proof.
  induction fr as [|[k1 v1] fr IH]; intros fo Hnd; [done|].
  cbn [map fst] in Hnd. apply NoDup_cons in Hnd as [Hk1 Hnd]. cbn [fold_left alist_get].
  rewrite IH by done. unfold merge_step. cbn [fst snd]. rewrite alist_get_set.
  destruct (String.eqb_spec k k1) as [->|Hne].
  - apply alist_get_None in Hk1. by rewrite Hk1.
  - done.
Qed.

Lemma merge_fold_fresh fr : forall acc,
  NoDup (map fst fr) ->
  (forall k, k ∈ map fst fr -> k ∉ map fst acc) ->
  (forall k v, (k, v) ∈ fr -> merge_value None v = v) ->
  fold_left merge_step fr acc = acc ++ fr.
Proof.
  induction fr as [|[k v] fr IH]; intros acc Hnd Hfresh Hval.
  - by rewrite app_nil_r.
  - cbn [map fst] in Hnd. apply NoDup_cons in Hnd as [Hk Hnd].
    cbn [fold_left]. unfold merge_step at 2. cbn [fst snd].
    assert (k ∉ map fst acc) as Hka by (apply Hfresh; left).
    apply alist_get_None in Hka as Hget. rewrite Hget.
    rewrite (Hval k v) by left. rewrite alist_set_fresh by done.
    rewrite IH; [by rewrite <- app_assoc | done | | ].
    + intros k' Hin. rewrite map_app. cbn. rewrite elem_of_app, list_elem_of_singleton.
      intros [Hin'| ->]; [|done]. eapply Hfresh; [|exact Hin']. by right.
    + intros k' v' Hin. apply (Hval k' v'). by right.
Qed.

(** Merging the content of a raw value into [{}] gives that content. *)
Lemma merge_json_empty n : forall h v t,
  reify n h v = Some t -> merge_value None (erase t) = erase t.
Proof.
  induction n as [|n IH]; intros h [p|l] t Hr.
  - rewrite reify_prim in Hr. by simplify_eq.
  - done.
  - rewrite reify_prim in Hr. by simplify_eq.
  - apply reify_ref in Hr as (c & fs & Hl & Hnd & Hrel & ->).
    cbn [merge_value erase is_plain]. destruct (ckind c); [|done].
    rewrite merge_json_node. f_equal. fold (erase_fields fs).
    rewrite merge_fold_fresh; [done | | | ].
    + unfold erase_fields. rewrite map_map. cbn.
      change (NoDup (map fst fs)). by rewrite (fields_rel_keys _ _ _ _ Hrel).
    + intros k _. apply not_elem_of_nil.
    + intros k v Hin. unfold erase_fields in Hin.
      apply list_elem_of_fmap in Hin as ([k' t'] & [= -> ->] & Hin).
      clear Hl Hnd. induction Hrel as [|kv kt ps fs [Hk Hx] _ IHrel].
      * by apply elem_of_nil in Hin.
      * apply elem_of_cons in Hin as [<-|Hin]; [by eapply IH | auto].
Qed.

(** The fields of a merge: a key of the other side holds the other side's
    value (merged with the original's when both are plain objects), any
    other key keeps the original's. *)
Lemma merge_json_get k ko fo kr fr :
  NoDup (map fst fr) ->
  alist_get k (fields_of (merge_json (JNode ko fo) (JNode kr fr))) =
  match alist_get k fr with
  | Some v => Some (merge_value (alist_get k fo) v)
  | None => alist_get k fo
  end.
Proof. intros Hnd. rewrite merge_json_node. cbn [fields_of]. by apply merge_fold_get. Qed.

(** ** The non-object guard *)

Lemma guard_ref l : non_object_guard (VRef l) = ret (VRef l).
Proof. reflexivity. Qed.

Lemma guard_not_object v : typeof v <> "object" -> non_object_guard v = new_object.
Proof.
  intros H. unfold non_object_guard.
  replace (String.eqb (typeof v) "object") with false; [done|].
  symmetry. by apply String.eqb_neq.
Qed.

Lemma guard_cases v :
  (non_object_guard v = ret v /\ (v = VPrim PNull \/ exists l, v = VRef l)) \/
  (non_object_guard v = new_object /\ typeof v <> "object").
Proof.
  destruct v as [[]|l]; try (right; split; [reflexivity | discriminate]).
  - left. split; [reflexivity | by left].
  - left. split; [reflexivity | right; by exists l].
Qed.

(** ** Lemmas for the claims *)

Lemma getDefaults_preserved this h v h1 :
  AdvancementDataField.getDefaults this h = Ok v h1 -> preserved h h1.
Proof.
  unfold AdvancementDataField.getDefaults.
  destruct (_ ≫= _) as [dv|].
  - destruct (nullish dv).
    + intros [= <- <-]. apply preserved_alloc.
    + intros [= <- <-]. apply preserved_refl.
  - intros [= <- <-]. apply preserved_alloc.
Qed.

Lemma reify_fields_NoDup n h v t :
  reify n h v = Some t -> NoDup (map fst (fields_of (erase t))).
Proof.
  destruct v as [p|l]; intros Hr.
  - rewrite reify_prim in Hr. simplify_eq. constructor.
  - destruct n as [|n]; [done|].
    apply reify_ref in Hr as (c & fs & _ & Hnd & Hrel & ->). cbn [erase fields_of].
    rewrite map_map. cbn. change (NoDup (map fst fs)).
    by rewrite (fields_rel_keys _ _ _ _ Hrel).
Qed.

Lemma reify_field_whole n h v t k j :
  reify n h v = Some t ->
  alist_get k (fields_of (erase t)) = Some j ->
  merge_value None j = j.
Proof.
  destruct v as [p|l]; intros Hr Hget.
  - rewrite reify_prim in Hr. by simplify_eq.
  - destruct n as [|n]; [done|].
    apply reify_ref in Hr as (c & fs & _ & _ & Hrel & ->). cbn [erase fields_of] in Hget.
    fold (erase_fields fs) in Hget. rewrite alist_get_erase in Hget.
    destruct (alist_get k fs) as [tc|] eqn:Htc; [|done]. cbn in Hget. simplify_eq.
    apply alist_get_Some_elem in Htc.
    induction Hrel as [|kv kt ps fs [Hk Hx] _ IHrel].
    + by apply elem_of_nil in Htc.
    + apply elem_of_cons in Htc as [<-|Htc]; [by eapply merge_json_empty | auto].
Qed.

Lemma reify_new_object n h : reify (S n) (h ++ [empty_object]) (VRef (length h)) =
  Some (TNode (length h) KObject []).
Proof.
  apply reify_ref. exists empty_object, []. repeat split.
  - by rewrite lookup_app_r, Nat.sub_diag by lia.
  - constructor.
  - constructor.
Qed.

(** Whatever the raw mapping, a child whose [clean] returns without
    touching the heap (a leaf field) makes [MappingField._cleanType] a
    no-op: same object, same heap. *)
Lemma MappingField_cleanType_leaf (this : MappingField.t) (options : Options) (h : heap) l c :
  (forall v h', exists v', clean (MappingField.model this) v options h' = Ok v' h') ->
  h !! l = Some c ->
  MappingField._cleanType this (VRef l) options h = Ok (VRef l) h.
Proof.
  intros Hpure Hl. unfold MappingField._cleanType.
  unfold bind at 1, Object_values, bind at 1, Object_entries, bind at 1, deref.
  rewrite Hl. cbn [ret]. unfold bind at 1.
  assert (forall vs, forEach vs
            (fun v => clean (MappingField.model this) v options;; ret tt) h = Ok tt h) as Hloop.
  { induction vs as [|v vs IH]; [done|]. cbn [forEach]. unfold bind at 1, bind at 1.
    destruct (Hpure v h) as [v' ->]. cbn [ret]. exact IH. }
  by rewrite Hloop.
Qed.

(** After a successful clean with an unresolved discriminator, the cleaned
    value of [AdvancementField] is an object, a finite tree, and its
    discriminator is the unresolved one. *)
Lemma AdvancementField_cleaned_unresolved
    (n : nat) (CONFIG_DND5E : CONFIG) (h h1 : heap) (raw cleaned : val) (tr : tree)
    (options : Options) :
  reify n h raw = Some tr ->
  (forall v h0 type, non_object_guard raw h = Ok v h0 ->
     get_property v "type" h0 = Ok type h0 ->
     AdvancementField.getModelForType CONFIG_DND5E type = None) ->
  AdvancementField._cleanType CONFIG_DND5E raw options h = Ok cleaned h1 ->
  exists type t1,
    get_property cleaned "type" h1 = Ok type h1 /\
    AdvancementField.getModelForType CONFIG_DND5E type = None /\
    reify (S n) h1 cleaned = Some t1.
Proof.
  intros Hr Hun Hclean. unfold AdvancementField._cleanType in Hclean.
  destruct (guard_cases raw) as [[Hg [-> |[l ->]]]|[Hg Hty]].
  - rewrite Hg in Hclean. done.
  - rewrite Hg in Hclean. unfold bind at 1, ret at 1 in Hclean.
    destruct n as [|n]; [done|].
    apply reify_ref in Hr as Hr'. destruct Hr' as (c & fs & Hl & _).
    pose proof (get_property_ref h l c "type" Hl) as Hget.
    rewrite (bind_Ok _ _ _ _ _ Hget) in Hclean.
    assert (AdvancementField.getModelForType CONFIG_DND5E
              (default (VPrim PUndefined) (alist_get "type" (props c))) = None) as Hreg.
    { apply (Hun (VRef l) h); [by rewrite Hg | done]. }
    rewrite Hreg in Hclean. injection Hclean as <- <-.
    eexists _, tr. repeat split; [exact Hget | exact Hreg |].
    eapply reify_mono; [|exact Hr]. lia.
  - rewrite Hg in Hclean. unfold bind at 1, new_object, bind at 1, alloc, ret at 1 in Hclean.
    assert (get_property (VRef (length h)) "type" (h ++ [empty_object]) =
            Ok (VPrim PUndefined) (h ++ [empty_object])) as Hget.
    { rewrite (get_property_ref _ _ empty_object); [done|].
      by rewrite lookup_app_r, Nat.sub_diag by lia. }
    rewrite (bind_Ok _ _ _ _ _ Hget) in Hclean.
    assert (AdvancementField.getModelForType CONFIG_DND5E (VPrim PUndefined) = None) as Hreg.
    { apply (Hun (VRef (length h)) (h ++ [empty_object])); [by rewrite Hg | done]. }
    rewrite Hreg in Hclean. injection Hclean as <- <-.
    eexists _, _. repeat split; [exact Hget | exact Hreg | apply reify_new_object].
Qed.

(** After a successful clean without a registered model, the cleaned value
    of [AdvancementDataField] is a finite tree. *)
Lemma AdvancementDataField_cleaned_unresolved
    (n : nat) (this : AdvancementDataField.t) (h h1 : heap) (raw cleaned : val) (tr : tree)
    (options : Options) :
  reify n h raw = Some tr ->
  AdvancementDataField.getModel this = None ->
  (forall v h0 d h', non_object_guard raw h = Ok v h0 ->
     AdvancementDataField.getDefaults this h0 = Ok d h' ->
     exists td, reify n h' d = Some td) ->
  AdvancementDataField._cleanType n this raw options h = Ok cleaned h1 ->
  exists t1, reify (S n) h1 cleaned = Some t1.
Proof.
  intros Hr Hmodel Hdef Hclean.
  assert (forall v h0 t0, non_object_guard raw h = Ok v h0 -> reify (S n) h0 v = Some t0 ->
            (v = VPrim PNull \/ exists l, v = VRef l) ->
            exists t1, reify (S n) h1 cleaned = Some t1) as Hkey.
  { intros v h0 t0 Hg Hv Hshape.
    unfold AdvancementDataField._cleanType in Hclean.
    rewrite (bind_Ok _ _ _ _ _ Hg), Hmodel in Hclean.
    destruct (partial options).
    - injection Hclean as <- <-. by exists t0.
    - unfold bind at 1 in Hclean.
      destruct (AdvancementDataField.getDefaults this h0) as [d h'| | |] eqn:Hd; try done.
      destruct (Hdef v h0 d h' Hg Hd) as (td & Htd).
      destruct d as [p|ld]; [by apply mergeObject_prim_throws in Hclean|].
      destruct n as [|n]; [done|].
      destruct Hshape as [-> |[l ->]].
      + rewrite mergeObject_null in Hclean.
        destruct (mergeObject_copy (S n) (h' ++ [empty_object]) ld (length h') td
                    (TNode (length h') KObject []))
          as (o & h2 & t' & Hm & _ & _ & Hr' & _).
        { eapply reify_preserved; [apply preserved_alloc | done]. }
        { apply reify_new_object. }
        rewrite Hm in Hclean. injection Hclean as <- <-.
        exists t'. eapply reify_mono; [|exact Hr']. lia.
      + assert (exists t0', reify (S n) h' (VRef l) = Some t0') as [t0' Ht0'].
        { assert (exists t, reify (S n) h0 (VRef l) = Some t) as [t Ht].
          { destruct (guard_cases raw) as [[Hg' Hs]|[Hg' Hs]]; rewrite Hg' in Hg.
            - injection Hg as <- <-. by exists tr.
            - unfold new_object, bind, alloc, ret in Hg. injection Hg as <- <-.
              eexists. eapply reify_mono; [|apply (reify_new_object 0)]. lia. }
          exists t. eapply reify_preserved; [by eapply getDefaults_preserved | done]. }
        destruct (mergeObject_copy (S n) h' ld l td t0' Htd Ht0')
          as (o & h2 & t' & Hm & _ & _ & Hr' & _).
        rewrite Hm in Hclean. injection Hclean as <- <-.
        exists t'. eapply reify_mono; [|exact Hr']. lia. }
  destruct (guard_cases raw) as [[Hg Hs]|[Hg Hs]].
  - apply (Hkey raw h tr); [by rewrite Hg | | done].
    eapply reify_mono; [|exact Hr]. lia.
  - apply (Hkey (VRef (length h)) (h ++ [empty_object]) (TNode (length h) KObject [])).
    + by rewrite Hg.
    + apply reify_new_object.
    + right. by eexists.
Qed.

(** ** The errors of a mapping *)

Section validate_fold.
Context (this : MappingField.t) (h : heap) (options : Options).


Lemma validate_fold_keys es : forall acc k,
  k ∈ map fst (fold_left (MappingField.collect_error this h options) es acc) <->
  k ∈ map fst acc \/ k ∈ map fst (failing this h options es).
Proof.
  unfold failing. induction es as [|[k1 v1] es IH]; intros acc k.
  - cbn. rewrite elem_of_nil. tauto.
  - cbn [fold_left]. rewrite IH. rewrite filter_cons. unfold MappingField.collect_error. cbn [fst snd].
    destruct (validate (MappingField.model this) h v1 options) as [e|] eqn:Hv.
    + rewrite decide_True by (by eexists). cbn [map fst].
      rewrite alist_set_elem_keys, elem_of_cons. tauto.
    + rewrite decide_False by (by intros [? ?]). tauto.
Qed.

Lemma validate_fold_NoDup es : forall acc,
  NoDup (map fst acc) -> NoDup (map fst (fold_left (MappingField.collect_error this h options) es acc)).
Proof.
  induction es as [|[k1 v1] es IH]; intros acc Hnd; [done|].
  cbn [fold_left]. apply IH. unfold MappingField.collect_error. cbn [fst snd].
  destruct (validate _ _ _ _); [by apply alist_set_NoDup | done].
Qed.

Lemma validate_fold_sound es : forall acc k e,
  (k, e) ∈ fold_left (MappingField.collect_error this h options) es acc ->
  (k, e) ∈ acc \/
  exists v, (k, v) ∈ es /\ validate (MappingField.model this) h v options = Some e.
Proof.
  induction es as [|[k1 v1] es IH]; intros acc k e Hin; [by left|].
  cbn [fold_left] in Hin. apply IH in Hin as [Hin|(v & Hin & Hv)].
  - unfold MappingField.collect_error in Hin. cbn [fst snd] in Hin.
    destruct (validate (MappingField.model this) h v1 options) as [e1|] eqn:Hv1; [|by left].
    apply elem_of_alist_set in Hin as [[= -> ->]|Hin]; [|by left].
    right. exists v1. split; [left | done].
  - right. exists v. split; [by right | done].
Qed.

Lemma validate_fold_valid es : forall acc,
  (forall kv, kv ∈ es -> validate (MappingField.model this) h kv.2 options = None) ->
  fold_left (MappingField.collect_error this h options) es acc = acc.
Proof.
  induction es as [|[k1 v1] es IH]; intros acc Hall; [done|].
  cbn [fold_left]. unfold MappingField.collect_error at 2. rewrite (Hall (k1, v1)) by left.
  apply IH. intros kv Hin. apply Hall. by right.
Qed.

Lemma validateValues_object l ps :
  h !! l = Some (Cell KObject ps) ->
  MappingField._validateValues this (VRef l) options h = Ok (fold_left (MappingField.collect_error this h options) ps []) h.
Proof.
  intros Hl. unfold MappingField._validateValues, bind, Object_entries, bind, deref.
  rewrite Hl. done.
Qed.

Lemma validateType_object l ps :
  h !! l = Some (Cell KObject ps) ->
  MappingField._validateType this (VRef l) options h =
  match fold_left (MappingField.collect_error this h options) ps [] with
  | [] => Ok tt h
  | errors => Throw (ModelValidationError errors)
  end.
Proof.
  intros Hl. unfold MappingField._validateType.
  unfold bind at 1, getType, bind at 1, deref. rewrite Hl. cbn [ret ckind].
  change (negb ("Object" =? "Object")%string) with false. cbv iota.
  rewrite (bind_Ok _ _ _ _ _ (validateValues_object l ps Hl)).
  by destruct (fold_left (MappingField.collect_error this h options) ps []).
Qed.
End validate_fold.

(** ** Seeding a mapping *)

Section getInitialValue_loop.
Context (this : MappingField.t) (l : loc) (kd : kind).
Context (Hchild : forall h, exists v h',
           getInitialValue (MappingField.model this) h = Ok v h' /\ preserved h h').
Context (Hproducer : forall f, MappingField.initialValue this = Some f ->
           forall k mi h, exists r h', f k mi h = Ok r h' /\ preserved h h').

Lemma getInitialValue_loop : forall ks ps h,
  h !! l = Some (Cell kd ps) ->
  Forall (fun kv => seeded this kv.1 kv.2) ps ->
  NoDup (map fst ps) ->
  exists h' ps',
    forEach ks (MappingField.seed_key this (VRef l)) h = Ok tt h' /\
    h' !! l = Some (Cell kd ps') /\
    (forall k, k ∈ map fst ps' <-> k ∈ map fst ps \/ k ∈ ks) /\
    NoDup (map fst ps') /\
    (NoDup ks -> (forall k, k ∈ ks -> k ∉ map fst ps) -> map fst ps' = map fst ps ++ ks) /\
    Forall (fun kv => seeded this kv.1 kv.2) ps'.
Proof.
  induction ks as [|k ks IH]; intros ps h Hl Hseed Hnd.
  - exists h, ps. repeat split; try done.
    + by left.
    + intros [?|Hin]; [done | by apply elem_of_nil in Hin].
    + intros _ _. by rewrite app_nil_r.
  - destruct (Hchild h) as (mi & h2 & Hmi & Hp2).
    assert (exists x h3,
      (match MappingField.initialValue this with
       | Some f => let* r := f k mi in ret (if nullish r then mi else r)
       | None => ret mi
       end) h2 = Ok x h3 /\ preserved h2 h3 /\ seeded this k x) as (x & h3 & Hx & Hp3 & Hsx).
    { destruct (MappingField.initialValue this) as [f|] eqn:Hf.
      - destruct (Hproducer f eq_refl k mi h2) as (r & h3 & Hr & Hp3).
        exists (if nullish r then mi else r), h3. split; [|split; [done|]].
        + unfold bind. by rewrite Hr.
        + exists h, mi, h2. split; [done|]. rewrite Hf. by exists r, h3.
      - exists mi, h2. split; [done|]. split; [apply preserved_refl|].
        exists h, mi, h2. split; [done|]. by rewrite Hf. }
    assert (h3 !! l = Some (Cell kd ps)) as Hl3 by (by apply Hp3, Hp2).
    destruct (IH (alist_set k x ps) (<[l := Cell kd (alist_set k x ps)]> h3))
      as (h' & ps' & Hloop & Hl' & Hkeys & Hnd' & Hord & Hseed').
    + apply list_lookup_insert_eq. by apply lookup_lt_Some in Hl3.
    + apply Forall_forall. intros kv Hin.
      apply elem_of_alist_set in Hin as [->|Hin]; [done|].
      by eapply Forall_forall in Hseed.
    + by apply alist_set_NoDup.
    + exists h', ps'. repeat split; try done.
      * cbn [forEach]. unfold bind at 1. unfold MappingField.seed_key at 1.
        rewrite (bind_Ok _ _ _ _ _ Hmi). rewrite (bind_Ok _ _ _ _ _ Hx).
        cbn [assign_property]. by rewrite (set_property_Ok _ _ _ _ _ Hl3).
      * intros Hin. apply Hkeys in Hin as [Hin|Hin]; [|right; by right].
        apply alist_set_elem_keys in Hin as [->|Hin]; [right; left | by left].
      * intros [Hin|Hin]; apply Hkeys.
        -- left. apply alist_set_elem_keys. by right.
        -- apply elem_of_cons in Hin as [->|Hin]; [|by right].
           left. apply alist_set_elem_keys. by left.
      * intros Hndk Hfresh. apply NoDup_cons in Hndk as [Hk Hndk].
        assert (k ∉ map fst ps) as Hkps by (apply Hfresh; left).
        rewrite Hord; [| done |].
        -- rewrite alist_set_fresh by done. rewrite map_app. cbn. by rewrite <- app_assoc.
        -- intros k' Hin. rewrite alist_set_elem_keys. intros [->|Hin']; [done|].
           eapply Hfresh; [|exact Hin']. by right.
Qed.
End getInitialValue_loop.

(** * The claims *)

(** C1 (divergence).  [getModelForType] looks the discriminator up with
    [advancementTypes[type]], which on an ordinary object also finds the
    members the object inherits.  For a raw object whose discriminator is
    "constructor", a name the registry does not register, the lookup
    finds the function [Object], not [null]: [AdvancementField._cleanType]
    throws a TypeError where the raw object was to be returned, and
    [AdvancementField.initialize] returns the raw object itself, with
    nothing copied. *)
Theorem C1_inherited_name_resolves
    (registered : gmap string DataModel) (fuel : nat) (l : loc) (c : cell)
    (model : val) (options : Options) (h : heap) :
  registered !! "constructor" = None ->
  h !! l = Some c ->
  alist_get "type" (props c) = Some (VPrim (PString "constructor")) ->
  AdvancementField.getModelForType (ordinary_registry registered)
    (VPrim (PString "constructor")) = Some ObjectConstructor /\
  AdvancementField._cleanType (ordinary_registry registered) (VRef l) options h
    = Throw (TypeError "cls.cleanData is not a function") /\
  AdvancementField.initialize fuel (ordinary_registry registered) (VRef l) model options h
    = Ok (VRef l) h.
Proof.
  intros Hreg Hl Hty.
  assert (AdvancementField.getModelForType (ordinary_registry registered)
            (VPrim (PString "constructor")) = Some ObjectConstructor) as Hcls.
  { unfold AdvancementField.getModelForType, ordinary_registry. cbn. by rewrite Hreg. }
  pose proof (get_property_ref h l c "type" Hl) as Hget. rewrite Hty in Hget. cbn in Hget.
  split; [exact Hcls|]. split.
  - unfold AdvancementField._cleanType. rewrite guard_ref.
    unfold bind at 1, ret at 1. rewrite (bind_Ok _ _ _ _ _ Hget). by rewrite Hcls.
  - unfold AdvancementField.initialize. rewrite (bind_Ok _ _ _ _ _ Hget). by rewrite Hcls.
Qed.

Lemma C1_witness :
  AdvancementField.getModelForType ExampleRegistry (VPrim (PString "constructor"))
    = Some ObjectConstructor /\
  AdvancementField._cleanType ExampleRegistry (VRef 0) {| partial := false |}
    ExampleConstructorHeap = Throw (TypeError "cls.cleanData is not a function") /\
  AdvancementField.initialize 3 ExampleRegistry (VRef 0) (VPrim PNull) {| partial := false |}
    ExampleConstructorHeap = Ok (VRef 0) ExampleConstructorHeap.
Proof.
  apply (C1_inherited_name_resolves {[ "ItemGrant" := StrictModel ]} 3 0
           (Cell KObject [("type", VPrim (PString "constructor"));
                          ("level", VPrim (PNumber 1))])
           (VPrim PNull) {| partial := false |} ExampleConstructorHeap);
    reflexivity.
Defined.

(** C2.  Cleaning the raw mapping [{a: "3", b: "bad"}] with a mapping field
    over the integer field returns the same object and leaves the heap as
    it is: the entry at key "a" is still the string "3", although the
    child's [clean] of "3" is the number 3.  The cleaned value of each
    entry is computed and dropped. *)
Theorem C2_clean_drops_cleaned_values :
  MappingField._cleanType ExampleMapping (VRef 0) {| partial := false |} ExampleMappingHeap
    = Ok (VRef 0) ExampleMappingHeap /\
  get_property (VRef 0) "a" ExampleMappingHeap = Ok (VPrim (PString "3")) ExampleMappingHeap /\
  clean IntegerField (VPrim (PString "3")) {| partial := false |} ExampleMappingHeap
    = Ok (VPrim (PNumber 3)) ExampleMappingHeap.
Proof. repeat split; reflexivity. Qed.

(** C3.  [MappingField._validateType] fails with the error
    "must be an Object" on a raw value whose type is not "Object" (a
    primitive, [null], an array).  On a plain object it validates every
    entry against the child: when none fails it succeeds, the heap
    unchanged; otherwise it fails with a [ModelValidationError] whose error
    map has exactly the keys of the failing entries, each once, each with
    an error the child gave for an entry under that key; so one invalid
    entry among valid ones gives the error map of that one key. *)
Theorem C3_validate_mapping
    (this : MappingField.t) (value : val) (options : Options) (h : heap) :
  (forall ty, getType value h = Ok ty h -> ty <> "Object" ->
     MappingField._validateType this value options h = Throw (Error "must be an Object")) /\
  (forall l ps, value = VRef l -> h !! l = Some (Cell KObject ps) ->
     (failing this h options ps = [] ->
        MappingField._validateType this value options h = Ok tt h) /\
     (failing this h options ps <> [] ->
        exists errors,
          MappingField._validateType this value options h
            = Throw (ModelValidationError errors) /\
          (forall k, k ∈ map fst errors <-> k ∈ map fst (failing this h options ps)) /\
          NoDup (map fst errors) /\
          (forall k e, (k, e) ∈ errors ->
             exists v, (k, v) ∈ ps /\
               validate (MappingField.model this) h v options = Some e))) /\
  (forall l ps1 k v e ps2, value = VRef l ->
     h !! l = Some (Cell KObject (ps1 ++ (k, v) :: ps2)) ->
     validate (MappingField.model this) h v options = Some e ->
     (forall kv, kv ∈ ps1 ++ ps2 ->
        validate (MappingField.model this) h kv.2 options = None) ->
     MappingField._validateType this value options h
       = Throw (ModelValidationError [(k, e)])).
Proof.
  split; [|split].
  - intros ty Hty Hne. unfold MappingField._validateType.
    rewrite (bind_Ok _ _ _ _ _ Hty).
    by replace (String.eqb ty "Object") with false by (symmetry; by apply String.eqb_neq).
  - intros l ps -> Hl. rewrite (validateType_object this h options l ps Hl).
    pose proof (validate_fold_keys this h options ps []) as Hkeys.
    pose proof (validate_fold_NoDup this h options ps [] (NoDup_nil_2)) as Hnd.
    pose proof (validate_fold_sound this h options ps []) as Hsound.
    cbv zeta in Hkeys, Hnd, Hsound.
    destruct (fold_left _ ps []) as [|[k0 e0] errors] eqn:Herr.
    + split; [done|]. intros Hsome. exfalso.
      destruct (failing this h options ps) as [|[k v] fs] eqn:Hf; [done|].
      destruct (Hkeys k) as [_ Hk]. cbn in Hk.
      eapply elem_of_nil, Hk. right. left.
    + split.
      * intros Hnone. exfalso. destruct (Hkeys k0) as [Hk _]. rewrite Hnone in Hk.
        cbn in Hk. destruct Hk as [Hk|Hk]; [left | | ]; by apply elem_of_nil in Hk.
      * intros _. exists ((k0, e0) :: errors). repeat split; try done.
        -- intros Hin. apply Hkeys in Hin as [Hin|Hin]; [by apply elem_of_nil in Hin | done].
        -- intros Hin. apply Hkeys. by right.
        -- intros k e Hin. apply Hsound in Hin as [Hin|Hin]; [by apply elem_of_nil in Hin | done].
  - intros l ps1 k v e ps2 -> Hl Hv Hvalid.
    rewrite (validateType_object this h options l _ Hl).
    rewrite fold_left_app. rewrite (validate_fold_valid this h options ps1 []).
    + cbn [fold_left]. unfold MappingField.collect_error at 2. cbn [fst snd].
      rewrite Hv. cbn [alist_set].
      rewrite (validate_fold_valid this h options ps2); [done|].
      intros kv Hin. apply Hvalid. apply elem_of_app. by right.
    + intros kv Hin. apply Hvalid. apply elem_of_app. by left.
Qed.

Lemma C3_witness :
  MappingField._validateType ExampleMapping (VRef 0) {| partial := false |}
    [Cell KObject [("a", VPrim (PNumber 3)); ("b", VPrim (PString "bad"))]]
  = Throw (ModelValidationError [("b", Error "must be an integer")]).
Proof.
  destruct (C3_validate_mapping ExampleMapping (VRef 0) {| partial := false |}
              [Cell KObject [("a", VPrim (PNumber 3)); ("b", VPrim (PString "bad"))]])
    as (_ & _ & H).
  apply (H 0 [("a", VPrim (PNumber 3))] "b" (VPrim (PString "bad")) _ []);
    [reflexivity | reflexivity | reflexivity |].
  intros kv Hin. apply list_elem_of_singleton in Hin as ->. reflexivity.
Defined.

(** C4. On an object raw value, when no data model is registered for the
    field: without the partial flag [AdvancementDataField._cleanType]
    returns an object whose content is the merge of the declared defaults
    with the raw value, in which every key of the raw value holds the raw
    value's entry (merged into the default under that key when both are
    plain objects) and every other key keeps its default; with the partial
    flag it returns the raw value itself, the heap unchanged. *)
Theorem C4_clean_merges_defaults_raw_wins
    (n : nat) (this : AdvancementDataField.t) (options : Options)
    (h h1 : heap) (r d : loc) (td tr : tree) :
  AdvancementDataField.getModel this = None ->
  AdvancementDataField.getDefaults this h = Ok (VRef d) h1 ->
  reify n h1 (VRef d) = Some td ->
  reify n h (VRef r) = Some tr ->
  (partial options = false ->
   exists res h' t',
     AdvancementDataField._cleanType n this (VRef r) options h = Ok res h' /\
     reify n h' res = Some t' /\
     erase t' = merge_json (erase td) (erase tr) /\
     (forall k,
        alist_get k (fields_of (erase t')) =
        match alist_get k (fields_of (erase tr)) with
        | Some v => Some (merge_value (alist_get k (fields_of (erase td))) v)
        | None => alist_get k (fields_of (erase td))
        end) /\
     (forall k v,
        alist_get k (fields_of (erase tr)) = Some v ->
        is_plain v = false \/
        match alist_get k (fields_of (erase td)) with
        | Some x => is_plain x = false
        | None => True
        end ->
        alist_get k (fields_of (erase t')) = Some v)) /\
  (partial options = true ->
   AdvancementDataField._cleanType n this (VRef r) options h = Ok (VRef r) h).
Proof.
  intros Hmodel Hdef Hd Hr. split; intros Hpartial.
  - destruct (mergeObject_copy n h1 d r td tr Hd) as (o & h' & t' & Hm & _ & _ & Hr' & Her).
    { eapply reify_preserved; [by eapply getDefaults_preserved | done]. }
    assert (forall k,
      alist_get k (fields_of (erase t')) =
      match alist_get k (fields_of (erase tr)) with
      | Some v => Some (merge_value (alist_get k (fields_of (erase td))) v)
      | None => alist_get k (fields_of (erase td))
      end) as Hget.
    { intros k. rewrite Her. pose proof (reify_fields_NoDup _ _ _ _ Hr) as Hnd.
      destruct n as [|n]; [done|].
      apply reify_ref in Hd as (cd & fd & _ & _ & _ & ->).
      apply reify_ref in Hr as (cr & fr & _ & _ & _ & ->).
      cbn [erase] in *. by apply merge_json_get. }
    exists (VRef o), h', t'. repeat split; try done.
    + unfold AdvancementDataField._cleanType. rewrite guard_ref, Hmodel, Hpartial.
      unfold bind at 1, ret at 1. unfold bind at 1. by rewrite Hdef.
    + intros k v Hv Hwin. rewrite Hget, Hv. f_equal.
      destruct (alist_get k (fields_of (erase td))) as [x|].
      * cbn [merge_value]. destruct Hwin as [->| ->]; [done|]. by rewrite andb_false_r.
      * exact (reify_field_whole _ _ _ _ _ _ Hr Hv).
  - unfold AdvancementDataField._cleanType. by rewrite guard_ref, Hmodel, Hpartial.
Qed.

Lemma C4_witness :
  (partial {| partial := false |} = false ->
   exists res h' t',
     AdvancementDataField._cleanType 3 ExampleDataField (VRef 1) {| partial := false |}
       ExampleHeap = Ok res h' /\
     reify 3 h' res = Some t' /\
     erase t' =
       merge_json
         (JNode KObject [("hint", JPrim (PString "none"));
                         ("choices", JNode KObject [("count", JPrim (PNumber 1))])])
         (JNode KObject [("items", JNode KArray [("0", JPrim (PString "a"))]);
                         ("hint", JPrim (PString "x"))])) /\
  (partial {| partial := true |} = true ->
   AdvancementDataField._cleanType 3 ExampleDataField (VRef 1) {| partial := true |}
     ExampleHeap = Ok (VRef 1) ExampleHeap).
Proof.
  split; intros Hp.
  - destruct (C4_clean_merges_defaults_raw_wins 3 ExampleDataField {| partial := false |}
                ExampleHeap ExampleHeap 1 3
                (TNode 3 KObject [("hint", TPrim (PString "none"));
                                  ("choices", TNode 4 KObject [("count", TPrim (PNumber 1))])])
                (TNode 1 KObject [("items", TNode 2 KArray [("0", TPrim (PString "a"))]);
                                  ("hint", TPrim (PString "x"))])
                eq_refl eq_refl eq_refl eq_refl) as [H _].
    destruct (H Hp) as (res & h' & t' & H1 & H2 & H3 & _).
    exists res, h', t'. repeat split; assumption.
  - apply (C4_clean_merges_defaults_raw_wins 3 ExampleDataField {| partial := true |}
             ExampleHeap ExampleHeap 1 3
             (TNode 3 KObject [("hint", TPrim (PString "none"));
                               ("choices", TNode 4 KObject [("count", TPrim (PNumber 1))])])
             (TNode 1 KObject [("items", TNode 2 KArray [("0", TPrim (PString "a"))]);
                               ("hint", TPrim (PString "x"))])
             eq_refl eq_refl eq_refl eq_refl). exact Hp.
Defined.

(** C5 (as the code has it). When [AdvancementDataField._cleanType] merges
    the declared defaults with a raw value (no registered model, no partial
    flag) it passes [inplace: false], so the merge is applied to a clone:
    the result is a new object, every object that existed is unchanged, and
    the defaults template still unfolds to the tree it had. *)
Theorem C5_defaults_template_not_mutated
    (n : nat) (this : AdvancementDataField.t) (options : Options)
    (h : heap) (r d : loc) (td tr : tree) :
  AdvancementDataField.getModel this = None ->
  partial options = false ->
  AdvancementDataField.getDefaults this h = Ok (VRef d) h ->
  reify n h (VRef d) = Some td ->
  reify n h (VRef r) = Some tr ->
  exists o h',
    AdvancementDataField._cleanType n this (VRef r) options h = Ok (VRef o) h' /\
    length h <= o /\
    preserved h h' /\
    h' !! d = h !! d /\
    reify n h' (VRef d) = Some td.
Proof.
  intros Hmodel Hpartial Hdef Hd Hr.
  destruct (mergeObject_copy n h d r td tr Hd Hr) as (o & h' & t' & Hm & Ho & Hp & _ & _).
  exists o, h'. repeat split; try done.
  - unfold AdvancementDataField._cleanType. rewrite guard_ref, Hmodel, Hpartial.
    unfold bind at 1, ret at 1. unfold bind at 1. by rewrite Hdef.
  - destruct n as [|n]; [done|]. apply reify_ref in Hd as (cd & _ & Hcd & _).
    rewrite Hcd. by apply Hp.
  - by eapply reify_preserved.
Qed.

Lemma C5_witness :
  exists o h',
    AdvancementDataField._cleanType 3 ExampleDataField (VRef 1) {| partial := false |}
      ExampleHeap = Ok (VRef o) h' /\
    length ExampleHeap <= o /\
    preserved ExampleHeap h' /\
    h' !! 3 = ExampleHeap !! 3 /\
    reify 3 h' (VRef 3) =
      Some (TNode 3 KObject [("hint", TPrim (PString "none"));
                             ("choices", TNode 4 KObject [("count", TPrim (PNumber 1))])]).
Proof.
  apply (C5_defaults_template_not_mutated 3 ExampleDataField {| partial := false |}
           ExampleHeap 1 3 _
           (TNode 1 KObject [("items", TNode 2 KArray [("0", TPrim (PString "a"))]);
                             ("hint", TPrim (PString "x"))]));
    reflexivity.
Defined.

(** C5, counterexample to the claim as stated.  Cleaning the raw value
    [{items: ["a"], hint: "x"}] against the defaults template
    [{hint: "none", choices: {count: 1}}] returns a new object (reference
    6); the template (reference 3) is as before: it has no key "items" and
    its "hint" is still "none". *)
Lemma C5_counterexample :
  AdvancementDataField._cleanType 3 ExampleDataField (VRef 1) {| partial := false |}
    ExampleHeap
  = Ok (VRef 6)
      (ExampleHeap ++
       [Cell KObject [("hint", VPrim (PString "x")); ("choices", VRef 7); ("items", VRef 2)];
        Cell KObject [("count", VPrim (PNumber 1))]]) /\
  (c ← (ExampleHeap ++
        [Cell KObject [("hint", VPrim (PString "x")); ("choices", VRef 7); ("items", VRef 2)];
         Cell KObject [("count", VPrim (PNumber 1))]]) !! 3;
   Some (props c))
  = Some [("hint", VPrim (PString "none")); ("choices", VRef 4)].
Proof. split; reflexivity. Qed.

(** C6.  Let [initial] be the initial value the field inherits.  When
    [initialKeys] is not configured, or [initial] is not empty,
    [getInitialValue] returns [initial] untouched.  When [initialKeys] is
    the list [ks] and [initial] is an empty mapping, it returns that
    mapping with exactly the keys of [ks], populated in the order of [ks],
    each value being an initial value of the child or what the value
    producer makes of it (the child's initial value when the producer
    returns nothing). *)
Theorem C6_getInitialValue_seeds_initialKeys
    (this : MappingField.t) (h0 h1 : heap) (initial : val) :
  MappingField.super_getInitialValue this h0 = Ok initial h1 ->
  (MappingField.initialKeys this = None \/ isEmpty initial h1 = Ok false h1 ->
     MappingField.getInitialValue this h0 = Ok initial h1) /\
  (forall ks l,
     MappingField.initialKeys this = Some (MappingField.KeyArray ks) ->
     initial = VRef l ->
     h1 !! l = Some (Cell KObject []) ->
     (forall h, exists v h',
        getInitialValue (MappingField.model this) h = Ok v h' /\ preserved h h') ->
     (forall f, MappingField.initialValue this = Some f ->
        forall k mi h, exists r h', f k mi h = Ok r h' /\ preserved h h') ->
     exists h' ps,
       MappingField.getInitialValue this h0 = Ok (VRef l) h' /\
       h' !! l = Some (Cell KObject ps) /\
       (forall k, k ∈ map fst ps <-> k ∈ ks) /\
       NoDup (map fst ps) /\
       (NoDup ks -> map fst ps = ks) /\
       Forall (fun kv => seeded this kv.1 kv.2) ps).
Proof.
  intros Hsuper. split.
  - intros Hcase. unfold MappingField.getInitialValue.
    rewrite (bind_Ok _ _ _ _ _ Hsuper).
    destruct (MappingField.initialKeys this) as [keys|]; [|done].
    destruct Hcase as [?|Hempty]; [done|]. by rewrite (bind_Ok _ _ _ _ _ Hempty).
  - intros ks l Hkeys -> Hl Hchild Hproducer.
    destruct (getInitialValue_loop this l KObject Hchild Hproducer ks [] h1 Hl)
      as (h' & ps & Hloop & Hl' & Hk & Hnd & Hord & Hseed); [constructor | constructor |].
    exists h', ps. repeat split; try done.
    + unfold MappingField.getInitialValue. rewrite (bind_Ok _ _ _ _ _ Hsuper), Hkeys.
      unfold bind at 1, isEmpty, bind at 1, deref. rewrite Hl. cbn [ret props negb].
      unfold bind at 1. by rewrite Hloop.
    + intros Hin. apply Hk in Hin as [Hin|Hin]; [by apply elem_of_nil in Hin | done].
    + intros Hin. apply Hk. by right.
    + intros Hndk. rewrite Hord; [done | done |]. intros k _. apply not_elem_of_nil.
Qed.

Lemma C6_witness :
  exists h' ps,
    MappingField.getInitialValue ExampleSeededMapping ExampleMappingHeap = Ok (VRef 1) h' /\
    h' !! 1 = Some (Cell KObject ps) /\
    (forall k, k ∈ map fst ps <-> k ∈ ["str"; "dex"]) /\
    NoDup (map fst ps) /\
    (NoDup ["str"; "dex"] -> map fst ps = ["str"; "dex"]) /\
    Forall (fun kv => seeded ExampleSeededMapping kv.1 kv.2) ps.
Proof.
  destruct (C6_getInitialValue_seeds_initialKeys ExampleSeededMapping ExampleMappingHeap
              (ExampleMappingHeap ++ [empty_object]) (VRef 1) eq_refl) as [_ H].
  apply (H ["str"; "dex"] 1 eq_refl eq_refl eq_refl).
  - intros h. exists (VPrim (PNumber 0)), h. split; [reflexivity | apply preserved_refl].
  - intros f Hf k mi h. injection Hf as <-.
    eexists _, h. split; [reflexivity | apply preserved_refl].
Defined.

(** C7 (as the code has it).  For a raw value that is a finite tree and on
    which cleaning succeeded: when the discriminator is unresolved,
    [initialize] of the cleaned value returns (and with no fuel does it
    throw), for [AdvancementField] and, the declared defaults being a
    finite tree too, for [AdvancementDataField]; when the discriminator
    resolves to a registered class, [initialize] is the constructor of that
    class on the cleaned value, and returns or throws as the constructor
    does. *)
Theorem C7_initialize_after_clean
    (n : nat) (CONFIG_DND5E : CONFIG) (this : AdvancementDataField.t)
    (h : heap) (raw model : val) (tr : tree) (options options' : Options) :
  reify n h raw = Some tr ->
  (forall cleaned h1,
     (forall v h0 type, non_object_guard raw h = Ok v h0 ->
        get_property v "type" h0 = Ok type h0 ->
        AdvancementField.getModelForType CONFIG_DND5E type = None) ->
     AdvancementField._cleanType CONFIG_DND5E raw options h = Ok cleaned h1 ->
     (exists r h2,
        AdvancementField.initialize (S n) CONFIG_DND5E cleaned model options' h1 = Ok r h2) /\
     (forall fuel e,
        AdvancementField.initialize fuel CONFIG_DND5E cleaned model options' h1 <> Throw e)) /\
  (forall cleaned h1,
     AdvancementDataField.getModel this = None ->
     (forall v h0 d h', non_object_guard raw h = Ok v h0 ->
        AdvancementDataField.getDefaults this h0 = Ok d h' ->
        exists td, reify n h' d = Some td) ->
     AdvancementDataField._cleanType n this raw options h = Ok cleaned h1 ->
     (exists r h2,
        AdvancementDataField.initialize (S n) this cleaned model options' h1 = Ok r h2) /\
     (forall fuel e,
        AdvancementDataField.initialize fuel this cleaned model options' h1 <> Throw e)) /\
  (forall fuel cleaned h1 type cls,
     get_property cleaned "type" h1 = Ok type h1 ->
     AdvancementField.getModelForType CONFIG_DND5E type = Some cls ->
     AdvancementField.initialize fuel CONFIG_DND5E cleaned model options' h1 =
     construct cls cleaned model options' h1) /\
  (forall fuel cleaned h1 cls,
     AdvancementDataField.getModel this = Some cls ->
     AdvancementDataField.initialize fuel this cleaned model options' h1 =
     construct cls cleaned model options' h1).
Proof.
  intros Hr. split; [|split; [|split]].
  - intros cleaned h1 Hun Hclean.
    destruct (AdvancementField_cleaned_unresolved _ _ _ _ _ _ _ _ Hr Hun Hclean)
      as (type & t1 & Hget & Hreg & Ht1).
    assert (forall fuel,
      AdvancementField.initialize fuel CONFIG_DND5E cleaned model options' h1 =
      deepClone fuel cleaned h1) as Hinit.
    { intros fuel. unfold AdvancementField.initialize.
      rewrite (bind_Ok _ _ _ _ _ Hget). by rewrite Hreg. }
    split.
    + destruct (deepClone_spec _ _ _ _ Ht1) as (v' & h' & Hc & _).
      exists v', h'. by rewrite Hinit.
    + intros fuel e. rewrite Hinit. apply deepClone_no_throw.
  - intros cleaned h1 Hmodel Hdef Hclean.
    destruct (AdvancementDataField_cleaned_unresolved _ _ _ _ _ _ _ _ Hr Hmodel Hdef Hclean)
      as (t1 & Ht1).
    unfold AdvancementDataField.initialize. rewrite Hmodel. split.
    + destruct (deepClone_spec _ _ _ _ Ht1) as (v' & h' & Hc & _). by exists v', h'.
    + intros fuel e. apply deepClone_no_throw.
  - intros fuel cleaned h1 type cls Hget Hreg.
    unfold AdvancementField.initialize. rewrite (bind_Ok _ _ _ _ _ Hget). by rewrite Hreg.
  - intros fuel cleaned h1 cls Hmodel.
    unfold AdvancementDataField.initialize. by rewrite Hmodel.
Qed.

Lemma C7_witness :
  (exists r h2,
     AdvancementField.initialize 4 ExampleConfig (VRef 0) (VPrim PNull) {| partial := false |}
       ExampleHeap = Ok r h2) /\
  (exists cleaned h1 r h2,
     AdvancementDataField._cleanType 3 ExampleDataField (VRef 1) {| partial := false |}
       ExampleHeap = Ok cleaned h1 /\
     AdvancementDataField.initialize 4 ExampleDataField cleaned (VPrim PNull)
       {| partial := false |} h1 = Ok r h2).
Proof.
  destruct (C7_initialize_after_clean 3 ExampleConfig ExampleDataField ExampleHeap
              (VRef 0) (VPrim PNull)
              (TNode 0 KObject
                 [("type", TPrim (PString "Custom"));
                  ("configuration",
                   TNode 1 KObject
                     [("items", TNode 2 KArray [("0", TPrim (PString "a"))]);
                      ("hint", TPrim (PString "x"))])])
              {| partial := false |} {| partial := false |} eq_refl) as [Ha _].
  destruct (C7_initialize_after_clean 3 ExampleConfig ExampleDataField ExampleHeap
              (VRef 1) (VPrim PNull)
              (TNode 1 KObject
                 [("items", TNode 2 KArray [("0", TPrim (PString "a"))]);
                  ("hint", TPrim (PString "x"))])
              {| partial := false |} {| partial := false |} eq_refl) as (_ & Hb & _).
  split.
  - apply (Ha (VRef 0) ExampleHeap); [|reflexivity].
    intros v h0 type Hg Hget. injection Hg as <- <-. injection Hget as <-. reflexivity.
  - assert (AdvancementDataField._cleanType 3 ExampleDataField (VRef 1)
              {| partial := false |} ExampleHeap
            = Ok (VRef 6)
                (ExampleHeap ++
                 [Cell KObject [("hint", VPrim (PString "x")); ("choices", VRef 7);
                                ("items", VRef 2)];
                  Cell KObject [("count", VPrim (PNumber 1))]])) as Hclean by reflexivity.
    assert (forall v h0 d h',
              non_object_guard (VRef 1) ExampleHeap = Ok v h0 ->
              AdvancementDataField.getDefaults ExampleDataField h0 = Ok d h' ->
              exists td, reify 3 h' d = Some td) as Hdef.
    { intros v h0 d h' Hg Hd. injection Hg as <- <-. injection Hd as <- <-.
      eexists. reflexivity. }
    destruct (Hb _ _ eq_refl Hdef Hclean) as [(r & h2 & Hinit) _].
    eexists _, _, r, h2. split; [exact Hclean | exact Hinit].
Defined.

(** C7, counterexample to the claim as stated.  The registry knows
    "ItemGrant"; cleaning [{type: "ItemGrant"}] succeeds (the class's
    [cleanData] returns the data), and initializing the cleaned value
    throws: the constructor of the class rejects it. *)
Lemma C7_counterexample :
  AdvancementField._cleanType ExampleConfig (VRef 5) {| partial := false |} ExampleHeap
    = Ok (VRef 5) ExampleHeap /\
  AdvancementField.initialize 3 ExampleConfig (VRef 5) (VPrim PNull) {| partial := false |}
    ExampleHeap = Throw (Error "level: may not be undefined").
Proof. split; reflexivity. Qed.

(** C8 (divergence).  [null] is not an object-like container, yet it is
    not replaced by an empty object: the guard tests [typeof value], and
    [typeof null] is "object".  [AdvancementField._cleanType] goes on to
    read [null.type] and throws a TypeError, whatever the registry, the
    options and the heap. *)
Theorem C8_null_not_replaced (CONFIG_DND5E : CONFIG) (options : Options) (h : heap) :
  typeof (VPrim PNull) = "object" /\
  non_object_guard (VPrim PNull) h = Ok (VPrim PNull) h /\
  AdvancementField._cleanType CONFIG_DND5E (VPrim PNull) options h
    = Throw (TypeError "Cannot read properties of null (reading 'type')").
Proof. repeat split; reflexivity. Qed.

(** C8, at a concrete input.  [null] is not an object-like container, yet
    its [typeof] is "object": the guard lets it through and
    [AdvancementField._cleanType] fails reading its "type", where on a
    fresh empty object it returns that object. *)
Lemma C8_counterexample :
  typeof (VPrim PNull) = "object" /\
  AdvancementField._cleanType ExampleConfig (VPrim PNull) {| partial := false |} ExampleHeap
    = Throw (TypeError "Cannot read properties of null (reading 'type')") /\
  AdvancementField._cleanType ExampleConfig (VRef (length ExampleHeap))
    {| partial := false |} (ExampleHeap ++ [empty_object])
    = Ok (VRef 6) (ExampleHeap ++ [empty_object]).
Proof. repeat split; reflexivity. Qed.

(** C9 (as the code has it).  For a formula field with
    [deterministic = true] and a value the evaluator parses: when the parsed
    roll is not deterministic (it has a dice term), validation fails with
    the error "must not contain dice terms"; when it is deterministic and
    the safe evaluation of its formula succeeds, validation goes on to the
    type validation inherited from the string field, and succeeds or fails
    as that does. *)
Theorem C9_deterministic_formula
    (Roll : RollClass) (this : FormulaField.t) (value : val) (r : roll Roll) (h : heap) :
  FormulaField.deterministic this = true ->
  Roll_new Roll value = inr r ->
  (isDeterministic Roll r = false ->
     FormulaField._validateType Roll this value h
       = Throw (Error "must not contain dice terms")) /\
  (forall z, isDeterministic Roll r = true ->
     safeEval Roll (formula Roll r) = inr z ->
     FormulaField._validateType Roll this value h
       = FormulaField.super_validateType this value h).
Proof.
  intros Hdet Hparse. unfold FormulaField._validateType. rewrite Hparse, Hdet.
  cbn [lift]. unfold bind, ret. cbv beta. split.
  - intros Hdice. by rewrite Hdice.
  - intros z Hnodice Heval. by rewrite Hnodice, Heval.
Qed.

Lemma C9_witness :
  FormulaField._validateType ExampleRoll ExampleFormulaField (VPrim (PString "1d6 + 2")) []
    = Throw (Error "must not contain dice terms") /\
  FormulaField._validateType ExampleRoll ExampleFormulaField (VPrim (PString "10 + 2")) []
    = Ok tt [].
Proof.
  split.
  - apply (C9_deterministic_formula ExampleRoll ExampleFormulaField
             (VPrim (PString "1d6 + 2")) "1d6 + 2" []); reflexivity.
  - apply (proj2 (C9_deterministic_formula ExampleRoll ExampleFormulaField
                    (VPrim (PString "10 + 2")) "10 + 2" [] eq_refl eq_refl) 12%Z);
      reflexivity.
Defined.

(** C9, counterexample to the claim as stated.  The formula "10 + 2" has no
    dice term and its safe evaluation gives 12, yet its validation by a
    deterministic formula field fails: the field ends with the inherited
    validation of the string field, which here rejects the value. *)
Lemma C9_counterexample :
  isDeterministic ExampleRoll "10 + 2" = true /\
  safeEval ExampleRoll (formula ExampleRoll "10 + 2") = inr 12%Z /\
  FormulaField._validateType ExampleRoll ExampleChoiceFormulaField
    (VPrim (PString "10 + 2")) []
  = Throw (Error "is not a valid choice").
Proof. repeat split; reflexivity. Qed.

(** C10.  [AdvancementField.initialize] has no guard: on [null] and on
    [undefined] it throws a TypeError, reading the property "type" of the
    value, whatever the registry, the fuel, the parent and the options. *)
Theorem C10_initialize_null_undefined_throws
    (fuel : nat) (CONFIG_DND5E : CONFIG) (model : val) (options : Options) (h : heap) :
  AdvancementField.initialize fuel CONFIG_DND5E (VPrim PNull) model options h
    = Throw (TypeError "Cannot read properties of null (reading 'type')") /\
  AdvancementField.initialize fuel CONFIG_DND5E (VPrim PUndefined) model options h
    = Throw (TypeError "Cannot read properties of undefined (reading 'type')").
Proof. split; reflexivity. Qed.

(** * Further properties of the fields *)

(** ** [MappingField.initialize] *)

Lemma reduce_initialize_pure (f : val -> val) mi model options h :
  (forall v h1, mi v model options h1 = Ok (f v) h1) ->
  forall rest pd,
  NoDup (map fst pd ++ map fst rest) ->
  reduce rest (MappingField.initialize_entry mi model options) (VRef (length h))
    (h ++ [Cell KObject pd])
  = Ok (VRef (length h)) (h ++ [Cell KObject (pd ++ map (fun kv => (kv.1, f kv.2)) rest)]).
Proof.
  intros Hmi. induction rest as [|[k v] rest IH]; intros pd Hnd.
  - cbn. by rewrite app_nil_r.
  - cbn [reduce]. unfold bind at 1. unfold MappingField.initialize_entry at 1.
    rewrite (bind_Ok _ _ _ _ _ (Hmi v _)). cbn [fst snd assign_property].
    unfold bind at 1.
    assert ((h ++ [Cell KObject pd]) !! length h = Some (Cell KObject pd)) as Hl
      by (by rewrite lookup_app_r, Nat.sub_diag).
    rewrite (set_property_Ok _ _ _ _ _ Hl). cbn [ret ckind props].
    rewrite insert_app_r_alt, Nat.sub_diag by done. cbn [insert list_insert].
    assert (k ∉ map fst pd) as Hk.
    { cbn in Hnd. apply NoDup_app in Hnd as (_ & Hd & _).
      intros Hin. apply (Hd k Hin). left. }
    rewrite alist_set_fresh by done.
    rewrite IH.
    + cbn. by rewrite <- app_assoc.
    + rewrite map_app. cbn. rewrite <- app_assoc. exact Hnd.
Qed.

Section initialize_loop.
Context (mi : val -> val -> Options -> M val) (model : val) (options : Options) (h : heap).

Lemma initialize_loop : forall rest done pd hi,
  NoDup (map fst done ++ map fst rest) ->
  (forall kv h1, kv ∈ rest -> preserved h h1 ->
     exists x h2, mi kv.2 model options h1 = Ok x h2 /\ preserved h1 h2) ->
  preserved h hi ->
  hi !! length h = Some (Cell KObject pd) ->
  Forall2 (initialized mi model options) done pd ->
  exists h' ps,
    reduce rest (MappingField.initialize_entry mi model options) (VRef (length h)) hi
      = Ok (VRef (length h)) h' /\
    preserved h h' /\
    h' !! length h = Some (Cell KObject ps) /\
    Forall2 (initialized mi model options) (done ++ rest) ps.
Proof.
  induction rest as [|[k v] rest IH]; intros done pd hi Hnd Hchild Hp Hl Hdone.
  - exists hi, pd. rewrite app_nil_r. by repeat split.
  - destruct (Hchild (k, v) hi) as (x & h2 & Hx & Hp2); [left | done |].
    assert (h2 !! length h = Some (Cell KObject pd)) as Hl2 by (by apply Hp2).
    assert (k ∉ map fst pd) as Hk.
    { assert (map fst pd = map fst done) as ->.
      { clear -Hdone. induction Hdone as [|? ? ? ? [Hfst _]]; cbn; congruence. }
      cbn in Hnd. apply NoDup_app in Hnd as (_ & Hd & _).
      intros Hin. apply (Hd k Hin). left. }
    destruct (IH (done ++ [(k, v)]) (pd ++ [(k, x)])
                (<[length h := Cell KObject (pd ++ [(k, x)])]> h2))
      as (h' & ps & Hred & Hp' & Hl' & Hall).
    + rewrite map_app. cbn. rewrite <- app_assoc. exact Hnd.
    + intros kv h1 Hin. apply Hchild. by right.
    + intros l c Hlc. rewrite list_lookup_insert_ne.
      * by apply Hp2, Hp.
      * apply lookup_lt_Some in Hlc. lia.
    + apply list_lookup_insert_eq. by apply lookup_lt_Some in Hl2.
    + apply Forall2_app; [done|]. constructor; [|constructor].
      split; [done|]. by exists hi, h2.
    + exists h', ps. split; [|split; [done|split; [done|]]].
      * cbn [reduce]. unfold bind at 1. unfold MappingField.initialize_entry at 1.
        rewrite (bind_Ok _ _ _ _ _ Hx). cbn [fst snd assign_property].
        unfold bind at 1. rewrite (set_property_Ok _ _ _ _ _ Hl2). cbn [ret ckind props].
        by rewrite alist_set_fresh.
      * by rewrite <- app_assoc in Hall.
Qed.

Lemma initialize_loop_throws k v e ps2 : forall ps1 hi,
  (forall kv h1, kv ∈ ps1 -> preserved h h1 ->
     exists x h2, mi kv.2 model options h1 = Ok x h2 /\ preserved h1 h2) ->
  (forall h1, preserved h h1 -> mi v model options h1 = Throw e) ->
  preserved h hi ->
  is_Some (hi !! length h) ->
  reduce (ps1 ++ (k, v) :: ps2) (MappingField.initialize_entry mi model options)
    (VRef (length h)) hi = Throw e.
Proof.
  induction ps1 as [|[k1 v1] ps1 IH]; intros hi Hchild Hthrow Hp [c Hl].
  - cbn [app reduce]. unfold bind at 1. unfold MappingField.initialize_entry at 1.
    unfold bind at 1. cbn [snd]. by rewrite Hthrow.
  - destruct (Hchild (k1, v1) hi) as (x & h2 & Hx & Hp2); [left | done |].
    assert (h2 !! length h = Some c) as Hl2 by (by apply Hp2).
    cbn [app reduce]. unfold bind at 1. unfold MappingField.initialize_entry at 1.
    rewrite (bind_Ok _ _ _ _ _ Hx). cbn [fst snd assign_property].
    unfold bind at 1. rewrite (set_property_Ok _ _ _ _ _ Hl2). cbn [ret].
    apply IH.
    + intros kv h1 Hin. apply Hchild. by right.
    + done.
    + intros l c' Hlc. rewrite list_lookup_insert_ne.
      * by apply Hp2, Hp.
      * apply lookup_lt_Some in Hlc. lia.
    + exists (Cell (ckind c) (alist_set k1 x (props c))).
      apply list_lookup_insert_eq. by apply lookup_lt_Some in Hl2.
Qed.

End initialize_loop.

(** X1.  [MappingField.initialize] on a value that is not an object: a
    falsy value ([undefined], [null], [false], [0], the empty string) is
    returned as it is, the heap untouched; [true] and a number other than 0
    have no entries, so the result is a new empty object.  The child's
    [initialize] is not run in either case. *)
Theorem X1_MappingField_initialize_primitive
    (mi : val -> val -> Options -> M val) (p : prim) (model : val)
    (options : Options) (h : heap) :
  (truthy p = false ->
     MappingField.initialize mi p model options h = Ok (VPrim p) h) /\
  (truthy p = true -> (forall s, p <> PString s) ->
     MappingField.initialize mi p model options h
       = Ok (VRef (length h)) (h ++ [empty_object])).
Proof.
  split.
  - intros Hp. unfold MappingField.initialize. by rewrite Hp.
  - intros Hp Hs. unfold MappingField.initialize. rewrite Hp. cbn [negb].
    destruct p as [| |b|z|s]; try done. by destruct (Hs s).
Qed.

Lemma X1_witness :
  MappingField.initialize LeafInitialize (VPrim (PNumber 0)) (VPrim PNull)
    {| partial := false |} ExampleHeap = Ok (VPrim (PNumber 0)) ExampleHeap /\
  MappingField.initialize LeafInitialize (VPrim (PNumber 5)) (VPrim PNull)
    {| partial := false |} ExampleHeap = Ok (VRef 6) (ExampleHeap ++ [empty_object]).
Proof.
  split.
  - apply (proj1 (X1_MappingField_initialize_primitive LeafInitialize (PNumber 0) (VPrim PNull)
                    {| partial := false |} ExampleHeap)). reflexivity.
  - apply (proj2 (X1_MappingField_initialize_primitive LeafInitialize (PNumber 5) (VPrim PNull)
                    {| partial := false |} ExampleHeap)); [reflexivity | discriminate].
Defined.

(** X2.  [MappingField.initialize] on an object (or array) whose entries
    the child's [initialize] accepts, the child leaving existing objects
    as they are: the result is a new plain object; it has the keys of the
    raw value, in the same order, each holding what the child's
    [initialize] returned for the raw entry; the raw value and every other
    object that existed are unchanged. *)
Theorem X2_MappingField_initialize_entries
    (mi : val -> val -> Options -> M val) (l : loc) (c : cell) (model : val)
    (options : Options) (h : heap) :
  h !! l = Some c ->
  NoDup (map fst (props c)) ->
  (forall kv h1, kv ∈ props c -> preserved h h1 ->
     exists x h2, mi kv.2 model options h1 = Ok x h2 /\ preserved h1 h2) ->
  exists h' ps,
    MappingField.initialize mi (VRef l) model options h = Ok (VRef (length h)) h' /\
    h' !! length h = Some (Cell KObject ps) /\
    map fst ps = map fst (props c) /\
    Forall2 (initialized mi model options) (props c) ps /\
    preserved h h'.
Proof.
  intros Hl Hnd Hchild.
  destruct (initialize_loop mi model options h (props c) [] [] (h ++ [empty_object]))
    as (h' & ps & Hred & Hp & Hl' & Hall).
  - done.
  - exact Hchild.
  - apply preserved_alloc.
  - by rewrite lookup_app_r, Nat.sub_diag.
  - constructor.
  - exists h', ps. split; [|split; [done|split; [|split]]].
    + unfold MappingField.initialize. cbn [truthy negb].
      unfold bind at 1, Object_entries, bind at 1, deref. rewrite Hl. cbn [ret].
      unfold bind at 1, new_object, bind at 1, alloc. cbn [ret]. exact Hred.
    + clear -Hall. cbn in Hall. induction Hall as [|? ? ? ? [Hfst _]]; cbn; congruence.
    + exact Hall.
    + exact Hp.
Qed.

Lemma X2_witness :
  exists h' ps,
    MappingField.initialize WrapInitialize (VRef 1) (VPrim PNull) {| partial := false |}
      ExampleHeap = Ok (VRef 6) h' /\
    h' !! 6 = Some (Cell KObject ps) /\
    map fst ps = ["items"; "hint"] /\
    Forall2 (initialized WrapInitialize (VPrim PNull) {| partial := false |})
      [("items", VRef 2); ("hint", VPrim (PString "x"))] ps /\
    preserved ExampleHeap h'.
Proof.
  apply (X2_MappingField_initialize_entries WrapInitialize 1
           (Cell KObject [("items", VRef 2); ("hint", VPrim (PString "x"))])
           (VPrim PNull) {| partial := false |} ExampleHeap eq_refl).
  - apply (bool_decide_unpack _). vm_compute. exact I.
  - intros kv h1 _ _. eexists _, _. split; [reflexivity | apply preserved_alloc].
Defined.

(** X3.  [MappingField.initialize] with a child whose [initialize] is a
    function [f] of the entry's value and has no effect: the result is a
    new plain object that holds [f v] under each key of the raw value, in
    the same order, and nothing else changes.  With the child that returns
    its argument (the host's default) this is a shallow copy: the new
    object has the very entries of the raw value, so a nested object is
    shared with it, not copied. *)
Theorem X3_MappingField_initialize_pure_child
    (f : val -> val) (mi : val -> val -> Options -> M val)
    (l : loc) (c : cell) (model : val) (options : Options) (h : heap) :
  (forall v h1, mi v model options h1 = Ok (f v) h1) ->
  h !! l = Some c ->
  NoDup (map fst (props c)) ->
  MappingField.initialize mi (VRef l) model options h
    = Ok (VRef (length h))
         (h ++ [Cell KObject (map (fun kv => (kv.1, f kv.2)) (props c))]) /\
  ((forall v, f v = v) ->
   MappingField.initialize mi (VRef l) model options h
     = Ok (VRef (length h)) (h ++ [Cell KObject (props c)])).
Proof.
  intros Hmi Hl Hnd.
  assert (MappingField.initialize mi (VRef l) model options h
    = Ok (VRef (length h))
         (h ++ [Cell KObject (map (fun kv => (kv.1, f kv.2)) (props c))])) as Hres.
  { unfold MappingField.initialize. cbn [truthy negb].
    unfold bind at 1, Object_entries, bind at 1, deref. rewrite Hl. cbn [ret].
    unfold bind at 1, new_object, bind at 1, alloc. cbn [ret].
    unfold empty_object.
    by rewrite (reduce_initialize_pure f mi model options h Hmi (props c) []). }
  split; [exact Hres|].
  intros Hid. rewrite Hres.
  assert (map (fun kv : string * val => (kv.1, f kv.2)) (props c) = props c) as ->; [|done].
  clear -Hid. induction (props c) as [|[k v] ps IH]; cbn; [done|]. by rewrite Hid, IH.
Qed.

Lemma X3_witness :
  MappingField.initialize LeafInitialize (VRef 1) (VPrim PNull) {| partial := false |}
    ExampleHeap
  = Ok (VRef 6)
       (ExampleHeap ++ [Cell KObject [("items", VRef 2); ("hint", VPrim (PString "x"))]]).
Proof.
  assert (NoDup (map fst [("items", VRef 2); ("hint", VPrim (PString "x"))])) as Hnd.
  { apply (bool_decide_unpack _). vm_compute. exact I. }
  apply (proj2 (X3_MappingField_initialize_pure_child (fun v => v) LeafInitialize 1
           (Cell KObject [("items", VRef 2); ("hint", VPrim (PString "x"))])
           (VPrim PNull) {| partial := false |} ExampleHeap
           (fun _ _ => eq_refl) eq_refl Hnd)).
  reflexivity.
Defined.

(** X4.  [MappingField.initialize] does not catch: when the child's
    [initialize] throws on an entry, the entries before it having been
    accepted, the whole call throws that error; no mapping is returned and
    the entries after it are not looked at. *)
Theorem X4_MappingField_initialize_fails_fast
    (mi : val -> val -> Options -> M val) (l : loc) (c : cell)
    (ps1 ps2 : list (string * val)) (k : string) (v : val) (e : error)
    (model : val) (options : Options) (h : heap) :
  h !! l = Some c ->
  props c = ps1 ++ (k, v) :: ps2 ->
  (forall kv h1, kv ∈ ps1 -> preserved h h1 ->
     exists x h2, mi kv.2 model options h1 = Ok x h2 /\ preserved h1 h2) ->
  (forall h1, preserved h h1 -> mi v model options h1 = Throw e) ->
  MappingField.initialize mi (VRef l) model options h = Throw e.
Proof.
  intros Hl Hps Hchild Hthrow.
  unfold MappingField.initialize. cbn [truthy negb].
  unfold bind at 1, Object_entries, bind at 1, deref. rewrite Hl. cbn [ret].
  unfold bind at 1, new_object, bind at 1, alloc. cbn [ret]. rewrite Hps.
  apply (initialize_loop_throws mi model options h).
  - exact Hchild.
  - exact Hthrow.
  - apply preserved_alloc.
  - exists empty_object. by rewrite lookup_app_r, Nat.sub_diag.
Qed.

Lemma X4_witness :
  MappingField.initialize (construct StrictModel) (VRef 0) (VPrim PNull)
    {| partial := false |} ExampleCrewHeap
  = Throw (Error "level: may not be undefined").
Proof.
  apply (X4_MappingField_initialize_fails_fast (construct StrictModel) 0
           (Cell KObject [("a", VRef 1); ("b", VRef 2); ("c", VRef 1)])
           [("a", VRef 1)] [("c", VRef 1)] "b" (VRef 2) (Error "level: may not be undefined")
           (VPrim PNull) {| partial := false |} ExampleCrewHeap eq_refl eq_refl).
  - intros kv h1 Hin Hp. apply list_elem_of_singleton in Hin as ->.
    exists (VRef 1), h1. split; [|apply preserved_refl].
    cbn. unfold bind, deref. by rewrite (Hp 1 _ eq_refl).
  - intros h1 Hp. cbn. unfold bind, deref. by rewrite (Hp 2 _ eq_refl).
Defined.

(** ** [MappingField.getInitialValue] *)

(** X5.  [initialKeys] given as an object rather than a list: the keys
    seeded into an empty initial mapping are the own keys of that object,
    in its key order, each value being an initial value of the child or
    what the value producer makes of it; the values the [initialKeys]
    object holds play no part. *)
Theorem X5_getInitialValue_keys_of_object
    (this : MappingField.t) (h0 h1 : heap) (l : loc) (es : list (string * val)) :
  MappingField.super_getInitialValue this h0 = Ok (VRef l) h1 ->
  h1 !! l = Some (Cell KObject []) ->
  MappingField.initialKeys this = Some (MappingField.KeyObject es) ->
  NoDup (map fst es) ->
  (forall h, exists v h',
     getInitialValue (MappingField.model this) h = Ok v h' /\ preserved h h') ->
  (forall f, MappingField.initialValue this = Some f ->
     forall k mi h, exists r h', f k mi h = Ok r h' /\ preserved h h') ->
  exists h' ps,
    MappingField.getInitialValue this h0 = Ok (VRef l) h' /\
    h' !! l = Some (Cell KObject ps) /\
    map fst ps = map fst es /\
    Forall (fun kv => seeded this kv.1 kv.2) ps.
Proof.
  intros Hsuper Hl Hkeys Hndk Hchild Hproducer.
  destruct (getInitialValue_loop this l KObject Hchild Hproducer (map fst es) [] h1 Hl)
    as (h' & ps & Hloop & Hl' & Hk & Hnd & Hord & Hseed); [constructor | constructor |].
  exists h', ps. split; [|split; [done|split; [|done]]].
  - unfold MappingField.getInitialValue. rewrite (bind_Ok _ _ _ _ _ Hsuper), Hkeys.
    unfold bind at 1, isEmpty, bind at 1, deref. rewrite Hl. cbn [ret props negb].
    unfold bind at 1. by rewrite Hloop.
  - rewrite Hord; [done | done |]. intros k _. apply not_elem_of_nil.
Qed.

Lemma X5_witness :
  exists h' ps,
    MappingField.getInitialValue ExampleObjectKeysMapping ExampleMappingHeap
      = Ok (VRef 1) h' /\
    h' !! 1 = Some (Cell KObject ps) /\
    map fst ps = ["str"; "dex"] /\
    Forall (fun kv => seeded ExampleObjectKeysMapping kv.1 kv.2) ps.
Proof.
  apply (X5_getInitialValue_keys_of_object ExampleObjectKeysMapping ExampleMappingHeap
           (ExampleMappingHeap ++ [empty_object]) 1
           [("str", VPrim (PString "Strength")); ("dex", VPrim (PString "Dexterity"))]
           eq_refl eq_refl eq_refl).
  - apply (bool_decide_unpack _). vm_compute. exact I.
  - intros h. exists (VPrim (PNumber 0)), h. split; [reflexivity | apply preserved_refl].
  - intros f Hf. discriminate Hf.
Defined.

(** X7.  [getInitialValue] seeds the inherited initial value itself, not a
    copy.  When that value is one shared object (the same at every call)
    and [initialKeys] lists at least one key, the first call writes the
    seeded entries into the shared object and returns it; a second call
    then finds it not empty and returns it as it is, the heap unchanged. *)
Theorem X7_getInitialValue_shared_initial
    (this : MappingField.t) (l : loc) (k : string) (ks : list string) (h : heap) :
  (forall h1, MappingField.super_getInitialValue this h1 = Ok (VRef l) h1) ->
  h !! l = Some (Cell KObject []) ->
  MappingField.initialKeys this = Some (MappingField.KeyArray (k :: ks)) ->
  (forall h, exists v h',
     getInitialValue (MappingField.model this) h = Ok v h' /\ preserved h h') ->
  (forall f, MappingField.initialValue this = Some f ->
     forall k mi h, exists r h', f k mi h = Ok r h' /\ preserved h h') ->
  exists h' ps,
    MappingField.getInitialValue this h = Ok (VRef l) h' /\
    h' !! l = Some (Cell KObject ps) /\
    (forall k', k' ∈ map fst ps <-> k' ∈ k :: ks) /\
    MappingField.getInitialValue this h' = Ok (VRef l) h'.
Proof.
  intros Hsuper Hl Hkeys Hchild Hproducer.
  destruct (getInitialValue_loop this l KObject Hchild Hproducer (k :: ks) [] h Hl)
    as (h' & ps & Hloop & Hl' & Hk & Hnd & Hord & Hseed); [constructor | constructor |].
  exists h', ps. split; [|split; [done|split]].
  - unfold MappingField.getInitialValue. rewrite (bind_Ok _ _ _ _ _ (Hsuper h)), Hkeys.
    unfold bind at 1, isEmpty, bind at 1, deref. rewrite Hl. cbn [ret props negb].
    unfold bind at 1. by rewrite Hloop.
  - intros k'. rewrite Hk. split; [intros [Hin|Hin]; [by apply elem_of_nil in Hin | done]|].
    intros Hin. by right.
  - unfold MappingField.getInitialValue. rewrite (bind_Ok _ _ _ _ _ (Hsuper h')), Hkeys.
    unfold bind at 1, isEmpty, bind at 1, deref. rewrite Hl'. cbn [ret props].
    destruct ps as [|kv ps]; [|done].
    exfalso. assert (k ∈ map fst (@nil (string * val))) as Hin by (apply Hk; right; left).
    by apply elem_of_nil in Hin.
Qed.

Lemma X7_witness :
  exists h' ps,
    MappingField.getInitialValue ExampleSharedInitialMapping ExampleCrewHeap
      = Ok (VRef 2) h' /\
    h' !! 2 = Some (Cell KObject ps) /\
    (forall k', k' ∈ map fst ps <-> k' ∈ ["str"; "dex"]) /\
    MappingField.getInitialValue ExampleSharedInitialMapping h' = Ok (VRef 2) h'.
Proof.
  apply (X7_getInitialValue_shared_initial ExampleSharedInitialMapping 2 "str" ["dex"]
           ExampleCrewHeap (fun _ => eq_refl) eq_refl eq_refl).
  - intros h. exists (VPrim (PNumber 0)), h. split; [reflexivity | apply preserved_refl].
  - intros f Hf. discriminate Hf.
Defined.

Lemma preserved_length h h' : preserved h h' -> length h <= length h'.
Proof.
  intros Hp. destruct (decide (length h <= length h')) as [|Hlt]; [done|].
  destruct (lookup_lt_is_Some_2 h (length h')) as [c Hc]; [lia|].
  apply Hp, lookup_lt_Some in Hc. lia.
Qed.

Lemma alist_set_NoDup_values {V} (k : string) (v : V) (ps : list (string * V)) :
  v ∉ map snd ps -> NoDup (map snd ps) -> NoDup (map snd (alist_set k v ps)).
Proof.
  induction ps as [|[k' v'] ps IH]; cbn [alist_set map snd]; intros Hv Hnd.
  - apply NoDup_singleton.
  - apply not_elem_of_cons in Hv as [Hne Hv]. apply NoDup_cons in Hnd as [Hv' Hnd].
    destruct (String.eqb k k'); cbn [map snd].
    + by apply NoDup_cons.
    + apply NoDup_cons. split; [|by apply IH].
      intros Hin. apply list_elem_of_fmap in Hin as ([k1 v1] & -> & Hin).
      apply elem_of_alist_set in Hin as [[= _ ->]|Hin]; [done|].
      apply Hv'. apply list_elem_of_fmap. by exists (k1, v1).
Qed.

Section getInitialValue_fresh.
Context (this : MappingField.t) (l : loc) (kd : kind) (n0 : nat).
Context (Hnone : MappingField.initialValue this = None).
Context (Hchild : forall h, exists o h',
           getInitialValue (MappingField.model this) h = Ok (VRef o) h' /\
           length h <= o < length h' /\ preserved h h').

Lemma getInitialValue_fresh_loop : forall ks ps h,
  h !! l = Some (Cell kd ps) ->
  Forall (fun kv => exists o, kv.2 = VRef o /\ n0 <= o < length h) ps ->
  NoDup (map snd ps) ->
  n0 <= length h ->
  exists h' ps',
    forEach ks (MappingField.seed_key this (VRef l)) h = Ok tt h' /\
    h' !! l = Some (Cell kd ps') /\
    Forall (fun kv => exists o, kv.2 = VRef o /\ n0 <= o < length h') ps' /\
    NoDup (map snd ps').
Proof.
  induction ks as [|k ks IH]; intros ps h Hl Hall Hnd Hn0.
  - by exists h, ps.
  - destruct (Hchild h) as (o & h2 & Hmi & Ho & Hp2).
    assert (h2 !! l = Some (Cell kd ps)) as Hl2 by (by apply Hp2).
    destruct (IH (alist_set k (VRef o) ps) (<[l := Cell kd (alist_set k (VRef o) ps)]> h2))
      as (h' & ps' & Hloop & Hl' & Hall' & Hnd').
    + apply list_lookup_insert_eq. by apply lookup_lt_Some in Hl2.
    + apply Forall_forall. intros kv Hin. rewrite length_insert.
      apply elem_of_alist_set in Hin as [->|Hin].
      * exists o. split; [done | lia].
      * eapply Forall_forall in Hall as (o' & -> & Ho'); [|done].
        exists o'. split; [done | lia].
    + apply alist_set_NoDup_values; [|done].
      intros Hin. apply list_elem_of_fmap in Hin as (kv & Hkv & Hin).
      eapply Forall_forall in Hall as (o' & Ho' & Hlt); [|done].
      rewrite Ho' in Hkv. injection Hkv as ->. lia.
    + rewrite length_insert. lia.
    + exists h', ps'. split; [|done].
      cbn [forEach]. unfold bind at 1. unfold MappingField.seed_key at 1.
      rewrite (bind_Ok _ _ _ _ _ Hmi), Hnone. unfold bind at 1. cbn [ret assign_property].
      by rewrite (set_property_Ok _ _ _ _ _ Hl2).
Qed.
End getInitialValue_fresh.

(** X8.  [getInitialValue] asks the child for an initial value once per
    key.  With no value producer and a child whose [getInitialValue]
    returns a new object at each call, the seeded entries therefore hold
    pairwise distinct objects, all of them new: no two keys share an
    object, and none shares one with what existed before the call. *)
Theorem X8_getInitialValue_entries_distinct
    (this : MappingField.t) (h0 h1 : heap) (l : loc) (ks : list string) :
  MappingField.super_getInitialValue this h0 = Ok (VRef l) h1 ->
  h1 !! l = Some (Cell KObject []) ->
  MappingField.initialKeys this = Some (MappingField.KeyArray ks) ->
  MappingField.initialValue this = None ->
  (forall h, exists o h',
     getInitialValue (MappingField.model this) h = Ok (VRef o) h' /\
     length h <= o < length h' /\ preserved h h') ->
  exists h' ps,
    MappingField.getInitialValue this h0 = Ok (VRef l) h' /\
    h' !! l = Some (Cell KObject ps) /\
    Forall (fun kv => exists o, kv.2 = VRef o /\ length h1 <= o) ps /\
    NoDup (map snd ps).
Proof.
  intros Hsuper Hl Hkeys Hnone Hchild.
  destruct (getInitialValue_fresh_loop this l KObject (length h1) Hnone Hchild ks [] h1 Hl)
    as (h' & ps & Hloop & Hl' & Hall & Hnd); [constructor | constructor | done |].
  exists h', ps. split; [|split; [done|split; [|done]]].
  - unfold MappingField.getInitialValue. rewrite (bind_Ok _ _ _ _ _ Hsuper), Hkeys.
    unfold bind at 1, isEmpty, bind at 1, deref. rewrite Hl. cbn [ret props negb].
    unfold bind at 1. by rewrite Hloop.
  - eapply Forall_impl; [exact Hall|]. intros kv (o & Ho & Hlt). exists o. split; [done | lia].
Qed.

Lemma X8_witness :
  exists h' ps,
    MappingField.getInitialValue ExampleObjectChildMapping ExampleMappingHeap
      = Ok (VRef 1) h' /\
    h' !! 1 = Some (Cell KObject ps) /\
    Forall (fun kv => exists o, kv.2 = VRef o /\ 2 <= o) ps /\
    NoDup (map snd ps).
Proof.
  apply (X8_getInitialValue_entries_distinct ExampleObjectChildMapping ExampleMappingHeap
           (ExampleMappingHeap ++ [empty_object]) 1 ["str"; "dex"]
           eq_refl eq_refl eq_refl eq_refl).
  intros h. exists (length h), (h ++ [empty_object]). split; [reflexivity|].
  split; [rewrite length_app; cbn; lia | apply preserved_alloc].
Defined.

(** ** [MappingField.getInitialValue] and [MappingField._validateType] *)



(** ** [AdvancementField] and [AdvancementDataField] *)

(** X10.  Cleaning with [AdvancementField] is idempotent when the
    discriminator is not registered: if [_cleanType] returned [cleaned]
    without delegating to a registered class, [_cleanType] of [cleaned]
    returns [cleaned] again and changes nothing, whatever the options. *)
Theorem X10_AdvancementField_clean_idempotent
    (CONFIG_DND5E : CONFIG) (raw cleaned : val) (options options' : Options)
    (h h1 : heap) :
  (forall v h0 type, non_object_guard raw h = Ok v h0 ->
     get_property v "type" h0 = Ok type h0 ->
     AdvancementField.getModelForType CONFIG_DND5E type = None) ->
  AdvancementField._cleanType CONFIG_DND5E raw options h = Ok cleaned h1 ->
  AdvancementField._cleanType CONFIG_DND5E cleaned options' h1 = Ok cleaned h1.
Proof.
  intros Hun Hclean. unfold AdvancementField._cleanType in Hclean.
  destruct (guard_cases raw) as [[Hg [-> | [l ->]]] | [Hg Hty]].
  - by rewrite Hg in Hclean.
  - rewrite Hg in Hclean. unfold bind at 1, ret at 1 in Hclean.
    destruct (h !! l) as [c|] eqn:Hl.
    + pose proof (get_property_ref h l c "type" Hl) as Hget.
      rewrite (bind_Ok _ _ _ _ _ Hget) in Hclean.
      rewrite (Hun (VRef l) h _ (f_equal (fun m => m h) Hg) Hget) in Hclean.
      injection Hclean as <- <-.
      unfold AdvancementField._cleanType. rewrite guard_ref.
      unfold bind at 1, ret at 1. rewrite (bind_Ok _ _ _ _ _ Hget).
      by rewrite (Hun (VRef l) h _ (f_equal (fun m => m h) Hg) Hget).
    + unfold bind, get_property, bind, deref in Hclean. by rewrite Hl in Hclean.
  - rewrite Hg in Hclean.
    assert (new_object h = Ok (VRef (length h)) (h ++ [empty_object])) as Hnew by done.
    rewrite (bind_Ok _ _ _ _ _ Hnew) in Hclean.
    assert ((h ++ [empty_object]) !! length h = Some empty_object) as Hl
      by (by rewrite lookup_app_r, Nat.sub_diag).
    pose proof (get_property_ref _ _ _ "type" Hl) as Hget.
    rewrite (bind_Ok _ _ _ _ _ Hget) in Hclean.
    assert (non_object_guard raw h = Ok (VRef (length h)) (h ++ [empty_object])) as Hg'
      by (by rewrite Hg).
    rewrite (Hun _ _ _ Hg' Hget) in Hclean. injection Hclean as <- <-.
    unfold AdvancementField._cleanType. rewrite guard_ref.
    unfold bind at 1, ret at 1. rewrite (bind_Ok _ _ _ _ _ Hget).
    by rewrite (Hun _ _ _ Hg' Hget).
Qed.

Lemma X10_witness :
  AdvancementField._cleanType ExampleConfig (VRef 0) {| partial := true |} ExampleHeap
    = Ok (VRef 0) ExampleHeap.
Proof.
  apply (X10_AdvancementField_clean_idempotent ExampleConfig (VRef 0) (VRef 0)
           {| partial := false |} {| partial := true |} ExampleHeap ExampleHeap).
  - intros v h0 type Hg Hget. injection Hg as <- <-. injection Hget as <-. reflexivity.
  - reflexivity.
Defined.

Lemma mergeObject_empty n h d r :
  h !! d = Some empty_object ->
  h !! r = Some empty_object ->
  mergeObject (S n) (VRef d) (VRef r) false h = Ok (VRef (length h)) (h ++ [empty_object]).
Proof.
  intros Hd Hr. cbn [mergeObject truthy]. unfold bind at 1, ret at 1.
  cbn [deepClone]. unfold bind at 1. unfold bind at 1, deref. rewrite Hd.
  unfold bind at 1, alloc. cbn [ckind props map forEach empty_object].
  unfold bind at 1, ret at 1. unfold bind at 1, Object_keys, bind at 1, Object_entries.
  unfold ret at 1. cbv beta iota. unfold bind at 2, deref. unfold bind at 1.
  rewrite lookup_app_l by (by apply lookup_lt_Some in Hr).
  rewrite Hr. by cbn.
Qed.

(** X11.  [AdvancementDataField._cleanType] on a raw value that is not an
    object, or is [null], with no data model registered and no partial
    flag: it does not fail.  When the metadata declares an object as the
    defaults of the field, the result is a new object with the content of
    that object, and the declared object and every other object that
    existed are unchanged.  When it declares none (no metadata, no table
    of defaults, no entry for the field, or one that is [null] or
    [undefined]), the result is a new empty object. *)
Theorem X11_AdvancementDataField_clean_non_object
    (n : nat) (this : AdvancementDataField.t) (value : val) (options : Options)
    (h : heap) :
  typeof value <> "object" \/ value = VPrim PNull ->
  AdvancementDataField.getModel this = None ->
  partial options = false ->
  (forall d td,
     declared_defaults this = Some (VRef d) ->
     reify n h (VRef d) = Some td ->
     exists o h' t',
       AdvancementDataField._cleanType n this value options h = Ok (VRef o) h' /\
       length h <= o /\
       preserved h h' /\
       reify n h' (VRef o) = Some t' /\
       erase t' = erase td) /\
  (declared_defaults this = None \/
   (exists v, declared_defaults this = Some v /\ nullish v = true) ->
   AdvancementDataField._cleanType (S n) this value options h
     = Ok (VRef (length h + 2)) (h ++ [empty_object; empty_object; empty_object])).
Proof.
  intros Hvalue Hmodel Hpartial. split.
  - intros d td Hdecl Hd. destruct n as [|n]; [done|].
    assert (forall h1, AdvancementDataField.getDefaults this h1 = Ok (VRef d) h1) as Hdef.
    { intros h1. unfold AdvancementDataField.getDefaults.
      unfold declared_defaults in Hdecl. by rewrite Hdecl. }
    assert (reify (S n) (h ++ [empty_object]) (VRef d) = Some td) as Hd1
      by (eapply reify_preserved; [apply preserved_alloc | done]).
    destruct (mergeObject_copy (S n) (h ++ [empty_object]) d (length h) td _ Hd1
                (reify_new_object n h))
      as (o & h' & t' & Hm & Ho & Hp & Hr' & Her).
    exists o, h', t'. split; [|split; [|split; [|split; [done|]]]].
    + unfold AdvancementDataField._cleanType. rewrite Hmodel, Hpartial.
      destruct Hvalue as [Hty | ->].
      * rewrite (guard_not_object _ Hty).
        assert (new_object h = Ok (VRef (length h)) (h ++ [empty_object])) as Hnew by done.
        rewrite (bind_Ok _ _ _ _ _ Hnew). by rewrite (bind_Ok _ _ _ _ _ (Hdef _)).
      * unfold non_object_guard. cbn [typeof String.eqb Ascii.eqb Bool.eqb negb].
        unfold bind at 1, ret at 1. rewrite (bind_Ok _ _ _ _ _ (Hdef _)).
        by rewrite mergeObject_null.
    + rewrite length_app in Ho. cbn in Ho. lia.
    + intros l c Hl. apply Hp. by apply lookup_app_l_Some.
    + rewrite Her. apply reify_ref in Hd as (cd & fd & _ & _ & _ & ->). done.
  - intros Hdecl.
    assert (forall h1, AdvancementDataField.getDefaults this h1 = new_object h1) as Hdef.
    { intros h1. unfold AdvancementDataField.getDefaults.
      unfold declared_defaults in Hdecl.
      destruct Hdecl as [Hnone | (v & Hsome & Hv)].
      - by rewrite Hnone.
      - by rewrite Hsome, Hv. }
    unfold AdvancementDataField._cleanType. rewrite Hmodel, Hpartial.
    destruct Hvalue as [Hty | ->].
    + rewrite (guard_not_object _ Hty).
      assert (new_object h = Ok (VRef (length h)) (h ++ [empty_object])) as Hnew by done.
      rewrite (bind_Ok _ _ _ _ _ Hnew).
      unfold bind at 1. rewrite Hdef. unfold new_object at 1, bind at 1, alloc, ret at 1.
      rewrite (mergeObject_empty n _ (length (h ++ [empty_object])) (length h)).
      * rewrite !length_app. cbn [length]. rewrite <- !app_assoc. cbn [app].
        by replace (length h + 1 + 1) with (length h + 2) by lia.
      * by rewrite lookup_app_r, Nat.sub_diag.
      * rewrite lookup_app_l by (rewrite length_app; cbn; lia).
        by rewrite lookup_app_r, Nat.sub_diag.
    + unfold non_object_guard. cbn [typeof String.eqb Ascii.eqb Bool.eqb negb].
      unfold bind at 1, ret at 1.
      unfold bind at 1. rewrite Hdef. unfold new_object at 1, bind at 1, alloc, ret at 1.
      rewrite mergeObject_null.
      rewrite (mergeObject_empty n _ (length h) (length (h ++ [empty_object]))).
      * rewrite !length_app. cbn [length]. rewrite <- !app_assoc. cbn [app].
        by replace (length h + 1 + 1) with (length h + 2) by lia.
      * rewrite lookup_app_l by (rewrite length_app; cbn; lia).
        by rewrite lookup_app_r, Nat.sub_diag.
      * by rewrite lookup_app_r, Nat.sub_diag.
Qed.

Lemma X11_witness :
  (exists o h' t',
     AdvancementDataField._cleanType 3 ExampleDataField (VPrim (PString "x"))
       {| partial := false |} ExampleHeap = Ok (VRef o) h' /\
     length ExampleHeap <= o /\
     preserved ExampleHeap h' /\
     reify 3 h' (VRef o) = Some t' /\
     erase t' = JNode KObject [("hint", JPrim (PString "none"));
                               ("choices", JNode KObject [("count", JPrim (PNumber 1))])]) /\
  AdvancementDataField._cleanType 1 ExampleBareDataField (VPrim PNull)
    {| partial := false |} ExampleHeap
    = Ok (VRef 8) (ExampleHeap ++ [empty_object; empty_object; empty_object]).
Proof.
  assert (typeof (VPrim (PString "x")) <> "object" \/ VPrim (PString "x") = VPrim PNull)
    as Hvalue by (left; discriminate).
  split.
  - apply (proj1 (X11_AdvancementDataField_clean_non_object 3 ExampleDataField
                    (VPrim (PString "x")) {| partial := false |} ExampleHeap
                    Hvalue eq_refl eq_refl) 3
             (TNode 3 KObject [("hint", TPrim (PString "none"));
                               ("choices", TNode 4 KObject [("count", TPrim (PNumber 1))])])).
    + reflexivity.
    + vm_compute. reflexivity.
  - apply (proj2 (X11_AdvancementDataField_clean_non_object 0 ExampleBareDataField
                    (VPrim PNull) {| partial := false |} ExampleHeap
                    (or_intror eq_refl) eq_refl eq_refl)).
    left. reflexivity.
Defined.

(** X12.  Cleaning and then initializing with [AdvancementDataField],
    without a data model and without the partial flag: the initialized
    value has the content of the declared defaults merged with the raw
    value, and it is built from new objects only.  It shares no object
    with the raw value or with the defaults template, and both are left
    unchanged. *)
Theorem X12_AdvancementDataField_initialize_clean_independent
    (n : nat) (this : AdvancementDataField.t) (options options' : Options)
    (model : val) (h h1 : heap) (r d : loc) (td tr : tree) :
  AdvancementDataField.getModel this = None ->
  partial options = false ->
  AdvancementDataField.getDefaults this h = Ok (VRef d) h1 ->
  reify n h1 (VRef d) = Some td ->
  reify n h (VRef r) = Some tr ->
  exists cleaned hc v h2 t,
    AdvancementDataField._cleanType n this (VRef r) options h = Ok cleaned hc /\
    AdvancementDataField.initialize n this cleaned model options' hc = Ok v h2 /\
    preserved h h2 /\
    reify n h2 v = Some t /\
    erase t = merge_json (erase td) (erase tr) /\
    Forall (fun l => length h <= l) (locs t) /\
    NoDup (locs t).
Proof.
  intros Hmodel Hpartial Hdef Hd Hr.
  pose proof (getDefaults_preserved _ _ _ _ Hdef) as Hp1.
  destruct (mergeObject_copy n h1 d r td tr Hd) as (o & hc & tc & Hm & _ & Hpc & Hrc & Her).
  { by eapply reify_preserved. }
  destruct (deepClone_spec n hc (VRef o) tc Hrc)
    as (v & h2 & Hclone & Hp2 & t & Ht & Het & Hfresh & Hnd).
  exists (VRef o), hc, v, h2, t. split; [|split; [|split; [|split; [done|split; [|split]]]]].
  - unfold AdvancementDataField._cleanType. rewrite guard_ref, Hmodel, Hpartial.
    unfold bind at 1, ret at 1. unfold bind at 1. by rewrite Hdef.
  - unfold AdvancementDataField.initialize. by rewrite Hmodel.
  - intros l c Hl. by apply Hp2, Hpc, Hp1.
  - by rewrite Het.
  - eapply Forall_impl; [exact Hfresh|]. intros l Hl. cbn in Hl.
    pose proof (preserved_length _ _ Hp1). pose proof (preserved_length _ _ Hpc). lia.
  - done.
Qed.

Lemma X12_witness :
  exists cleaned hc v h2 t,
    AdvancementDataField._cleanType 3 ExampleDataField (VRef 1) {| partial := false |}
      ExampleHeap = Ok cleaned hc /\
    AdvancementDataField.initialize 3 ExampleDataField cleaned (VPrim PNull)
      {| partial := false |} hc = Ok v h2 /\
    preserved ExampleHeap h2 /\
    reify 3 h2 v = Some t /\
    erase t =
      merge_json
        (JNode KObject [("hint", JPrim (PString "none"));
                        ("choices", JNode KObject [("count", JPrim (PNumber 1))])])
        (JNode KObject [("items", JNode KArray [("0", JPrim (PString "a"))]);
                        ("hint", JPrim (PString "x"))]) /\
    Forall (fun l => length ExampleHeap <= l) (locs t) /\
    NoDup (locs t).
Proof.
  apply (X12_AdvancementDataField_initialize_clean_independent 3 ExampleDataField
           {| partial := false |} {| partial := false |} (VPrim PNull)
           ExampleHeap ExampleHeap 1 3
           (TNode 3 KObject [("hint", TPrim (PString "none"));
                             ("choices", TNode 4 KObject [("count", TPrim (PNumber 1))])])
           (TNode 1 KObject [("items", TNode 2 KArray [("0", TPrim (PString "a"))]);
                             ("hint", TPrim (PString "x"))])
           eq_refl eq_refl eq_refl); vm_compute; reflexivity.
Defined.

(** ** The merge of contents is idempotent *)

Lemma reify_wf n : forall h v t, reify n h v = Some t -> wf_json n (erase t).
Proof.
  induction n as [|n IH]; intros h [p|l] t Hr.
  - rewrite reify_prim in Hr. by simplify_eq.
  - done.
  - rewrite reify_prim in Hr. by simplify_eq.
  - apply reify_ref in Hr as (c & fs & _ & Hnd & Hfs & ->). cbn [erase wf_json]. split.
    + assert (map fst (map (fun kt : string * tree => (kt.1, erase kt.2)) fs) = map fst fs)
        as -> by (rewrite map_map; by apply map_ext).
      by rewrite (fields_rel_keys _ _ _ _ Hfs).
    + clear Hnd. induction Hfs as [|kv kt ps ts [_ Hkt] _ IHfs]; cbn [map]; constructor.
      * cbn [snd]. by eapply IH.
      * exact IHfs.
Qed.

Lemma wf_json_field n k fs x key :
  wf_json (S n) (JNode k fs) -> alist_get key fs = Some x -> wf_json n x.
Proof.
  intros [_ Hall] Hget. apply alist_get_Some_elem in Hget.
  by eapply Forall_forall in Hall; [|exact Hget].
Qed.

Lemma merge_empty_wf n : forall v, wf_json n v -> merge_value None v = v.
Proof.
  induction n as [|n IH]; intros [p|[] fr] Hwf; try done.
  destruct Hwf as [Hnd Hall]. cbn [merge_value is_plain]. rewrite merge_json_node.
  rewrite merge_fold_fresh; [done | done | |].
  - intros k _. apply not_elem_of_nil.
  - intros k v Hin. apply IH. by eapply Forall_forall in Hall; [|exact Hin].
Qed.

Lemma merge_fold_same fr : forall acc,
  (forall k v, (k, v) ∈ fr -> alist_get k acc = Some v /\ merge_value (Some v) v = v) ->
  fold_left merge_step fr acc = acc.
Proof.
  induction fr as [|[k v] fr IH]; intros acc Hall; [done|].
  cbn [fold_left]. destruct (Hall k v) as [Hget Hv]; [left|].
  unfold merge_step at 2. cbn [fst snd]. rewrite Hget, Hv, (alist_set_same _ _ _ Hget).
  apply IH. intros k' v' Hin. apply Hall. by right.
Qed.

Lemma merge_json_self n : forall x, wf_json n x -> merge_json x x = x.
Proof.
  induction n as [|n IH]; intros [p|k fs] Hwf; try done.
  destruct Hwf as [Hnd Hall]. rewrite merge_json_node. f_equal.
  apply merge_fold_same. intros key v Hin. split; [by apply alist_get_elem|].
  cbn [merge_value]. destruct (is_plain v); [|done]. cbn [andb].
  apply IH. by eapply Forall_forall in Hall; [|exact Hin].
Qed.

Lemma is_plain_merge_json x w : is_plain (merge_json x w) = is_plain x.
Proof. by destruct x, w. Qed.

Lemma filter_ext_elem {A} (P Q : A -> Prop) `{!forall x, Decision (P x)}
    `{!forall x, Decision (Q x)} (l : list A) :
  (forall x, x ∈ l -> (P x <-> Q x)) -> filter P l = filter Q l.
Proof.
  induction l as [|x l IH]; intros Hext; [done|].
  rewrite !filter_cons.
  destruct (decide (P x)) as [HP|HP], (decide (Q x)) as [HQ|HQ].
  - f_equal. apply IH. intros y Hy. apply Hext. by right.
  - destruct HQ. apply Hext; [left | done].
  - destruct HP. apply Hext; [left | done].
  - apply IH. intros y Hy. apply Hext. by right.
Qed.

Lemma merge_fold_keys fr : forall fo,
  NoDup (map fst fr) ->
  map fst (fold_left merge_step fr fo)
  = map fst fo ++ filter (fun k => k ∉ map fst fo) (map fst fr).
Proof.
  induction fr as [|[k v] fr IH]; intros fo Hnd; cbn [fold_left map fst].
  - by rewrite filter_nil, app_nil_r.
  - apply NoDup_cons in Hnd as [Hk Hnd]. rewrite IH by done.
    unfold merge_step. cbn [fst snd]. rewrite alist_set_keys. case_bool_decide as Hin.
    + by rewrite filter_cons_False by (by intros ?).
    + rewrite filter_cons_True by done. rewrite <- app_assoc. cbn [app]. do 2 f_equal.
      apply filter_ext_elem. intros k' Hk'. rewrite not_elem_of_app, not_elem_of_cons.
      split; [tauto|]. intros Hn. split; [done|]. split; [|apply not_elem_of_nil].
      by intros ->.
Qed.

Lemma merge_fold_NoDup fr : forall fo,
  NoDup (map fst fo) -> NoDup (map fst (fold_left merge_step fr fo)).
Proof.
  induction fr as [|[k v] fr IH]; intros fo Hnd; [done|].
  cbn [fold_left]. apply IH. by apply alist_set_NoDup.
Qed.

Lemma alist_ext {V} (a : list (string * V)) : forall b,
  NoDup (map fst a) -> map fst a = map fst b ->
  (forall k, alist_get k a = alist_get k b) -> a = b.
Proof.
  induction a as [|[k v] a IH]; intros [|[k' v'] b] Hnd Hkeys Hget; try done.
  cbn [map fst] in Hkeys, Hnd. injection Hkeys as <- Hkeys.
  apply NoDup_cons in Hnd as [Hk Hnd].
  pose proof (Hget k) as Hgk. cbn in Hgk. rewrite String.eqb_refl in Hgk.
  injection Hgk as <-. f_equal. apply IH; [done | done |].
  intros key. pose proof (Hget key) as Hgkey. cbn in Hgkey.
  destruct (String.eqb_spec key k) as [Heq|Hne]; [subst key|done].
  rewrite (proj2 (alist_get_None k a)) by done.
  symmetry. apply alist_get_None. by rewrite <- Hkeys.
Qed.

Lemma filter_not_elem_nil (ks l : list string) :
  (forall k, k ∈ l -> k ∈ ks) -> filter (fun k => k ∉ ks) l = [].
Proof.
  induction l as [|k l IH]; intros Hsub; [done|].
  rewrite filter_cons_False.
  - apply IH. intros k' Hk'. apply Hsub. by right.
  - intros Hk. apply Hk, Hsub. left.
Qed.

Lemma filter_idempotent {A} (P : A -> Prop) `{!forall x, Decision (P x)} (l : list A) :
  filter P (filter P l) = filter P l.
Proof.
  induction l as [|x l IH]; [done|].
  rewrite filter_cons. destruct (decide (P x)) as [HP|HP]; [|done].
  rewrite filter_cons_True by done. by f_equal.
Qed.

Lemma merge_json_idempotent n : forall d r,
  wf_json n d -> wf_json n r ->
  merge_json d (merge_json d r) = merge_json d r.
Proof.
  induction n as [|n IH]; intros [pd|kd fo] [pr|kr fr] Hd Hr; try done.
  - exact (merge_json_self (S n) _ Hd).
  - pose proof Hd as [Hndo Hallo]. pose proof Hr as [Hndr Hallr].
    rewrite !merge_json_node. f_equal.
    set (M := fold_left merge_step fr fo).
    assert (NoDup (map fst M)) as HndM by (by apply merge_fold_NoDup).
    assert (map fst M = map fst fo ++ filter (fun k => k ∉ map fst fo) (map fst fr))
      as HkM by (by apply merge_fold_keys).
    apply alist_ext.
    + by apply merge_fold_NoDup.
    + rewrite merge_fold_keys by done. rewrite HkM at 2. f_equal.
      rewrite HkM, filter_app, filter_not_elem_nil by done.
      apply filter_idempotent.
    + intros k. rewrite merge_fold_get by done.
      destruct (alist_get k M) as [v|] eqn:HM.
      * f_equal. unfold M in HM. rewrite merge_fold_get in HM by done.
        destruct (alist_get k fr) as [w|] eqn:Hw.
        -- injection HM as <-.
           destruct (alist_get k fo) as [x|] eqn:Hx; cbn [merge_value].
           ++ destruct (is_plain w && is_plain x) eqn:Hpl.
              ** apply andb_true_iff in Hpl as [Hpw Hpx].
                 rewrite is_plain_merge_json, Hpx. cbn [andb].
                 apply IH; eapply wf_json_field; [exact Hd | exact Hx | exact Hr | exact Hw].
              ** by rewrite Hpl.
           ++ assert (merge_value None w = w) as Hww
                by (eapply merge_empty_wf, wf_json_field; [exact Hr | exact Hw]).
              cbn [merge_value] in Hww. by rewrite !Hww.
        -- rewrite HM. cbn [merge_value]. destruct (is_plain v); [|done]. cbn [andb].
           eapply merge_json_self, wf_json_field; [exact Hd | exact HM].
      * assert (k ∉ map fst M) as Hk by (by apply alist_get_None).
        apply alist_get_None. intros Hin. apply Hk. rewrite HkM. apply elem_of_app. by left.
Qed.

(** X13.  Cleaning with [AdvancementDataField] is idempotent in content
    (no data model, no partial flag, the declared defaults being one
    template object): cleaning the cleaned value again yields a value with
    the same content as the cleaned value.  Merging the defaults a second
    time changes nothing. *)
Theorem X13_AdvancementDataField_clean_idempotent
    (n : nat) (this : AdvancementDataField.t) (options : Options)
    (h : heap) (r d : loc) (td tr : tree) :
  AdvancementDataField.getModel this = None ->
  partial options = false ->
  (forall h1, AdvancementDataField.getDefaults this h1 = Ok (VRef d) h1) ->
  reify n h (VRef d) = Some td ->
  reify n h (VRef r) = Some tr ->
  exists c1 h1 t1 c2 h2 t2,
    AdvancementDataField._cleanType n this (VRef r) options h = Ok (VRef c1) h1 /\
    reify n h1 (VRef c1) = Some t1 /\
    erase t1 = merge_json (erase td) (erase tr) /\
    AdvancementDataField._cleanType n this (VRef c1) options h1 = Ok (VRef c2) h2 /\
    reify n h2 (VRef c2) = Some t2 /\
    erase t2 = erase t1.
Proof.
  intros Hmodel Hpartial Hdef Hd Hr.
  destruct (mergeObject_copy n h d r td tr Hd Hr) as (c1 & h1 & t1 & Hm1 & _ & Hp1 & Hr1 & He1).
  assert (reify n h1 (VRef d) = Some td) as Hd1 by (by eapply reify_preserved).
  destruct (mergeObject_copy n h1 d c1 td t1 Hd1 Hr1)
    as (c2 & h2 & t2 & Hm2 & _ & Hp2 & Hr2 & He2).
  assert (forall r0 h0 res, mergeObject n (VRef d) (VRef r0) false h0 = res ->
            AdvancementDataField._cleanType n this (VRef r0) options h0 = res) as Hclean.
  { intros r0 h0 res <-. unfold AdvancementDataField._cleanType.
    rewrite guard_ref, Hmodel, Hpartial.
    unfold bind at 1, ret at 1. unfold bind at 1. by rewrite Hdef. }
  exists c1, h1, t1, c2, h2, t2. split; [by apply Hclean|].
  split; [done|]. split; [done|]. split; [by apply Hclean|]. split; [done|].
  rewrite He2, He1.
  apply (merge_json_idempotent n); by eapply reify_wf.
Qed.

Lemma X13_witness :
  exists c1 h1 t1 c2 h2 t2,
    AdvancementDataField._cleanType 3 ExampleDataField (VRef 1) {| partial := false |}
      ExampleHeap = Ok (VRef c1) h1 /\
    reify 3 h1 (VRef c1) = Some t1 /\
    erase t1 =
      merge_json
        (JNode KObject [("hint", JPrim (PString "none"));
                        ("choices", JNode KObject [("count", JPrim (PNumber 1))])])
        (JNode KObject [("items", JNode KArray [("0", JPrim (PString "a"))]);
                        ("hint", JPrim (PString "x"))]) /\
    AdvancementDataField._cleanType 3 ExampleDataField (VRef c1) {| partial := false |} h1
      = Ok (VRef c2) h2 /\
    reify 3 h2 (VRef c2) = Some t2 /\
    erase t2 = erase t1.
Proof.
  apply (X13_AdvancementDataField_clean_idempotent 3 ExampleDataField
           {| partial := false |} ExampleHeap 1 3
           (TNode 3 KObject [("hint", TPrim (PString "none"));
                             ("choices", TNode 4 KObject [("count", TPrim (PNumber 1))])])
           (TNode 1 KObject [("items", TNode 2 KArray [("0", TPrim (PString "a"))]);
                             ("hint", TPrim (PString "x"))])
           eq_refl eq_refl (fun _ => eq_refl)); vm_compute; reflexivity.
Defined.

(** X14.  [initialize] on a primitive value.  [AdvancementField] reads
    the discriminator first: for a primitive other than [null] and
    [undefined] this reads [undefined], and when nothing is registered
    under it the primitive is returned as it is.  [AdvancementDataField]
    does not read the value: without a data model every primitive, [null]
    and [undefined] included, is returned as it is and nothing is
    thrown. *)
Theorem X14_initialize_primitive
    (fuel : nat) (CONFIG_DND5E : CONFIG) (this : AdvancementDataField.t) (p : prim)
    (model : val) (options : Options) (h : heap) :
  (nullish p = false ->
   AdvancementField.getModelForType CONFIG_DND5E (VPrim PUndefined) = None ->
   AdvancementField.initialize fuel CONFIG_DND5E p model options h = Ok (VPrim p) h) /\
  (AdvancementDataField.getModel this = None ->
   AdvancementDataField.initialize fuel this p model options h = Ok (VPrim p) h).
Proof.
  split.
  - intros Hp Hun. unfold AdvancementField.initialize.
    assert (get_property p "type" h = Ok (VPrim PUndefined) h) as Hget by (by destruct p).
    rewrite (bind_Ok _ _ _ _ _ Hget), Hun. by destruct fuel.
  - intros Hmodel. unfold AdvancementDataField.initialize. rewrite Hmodel. by destruct fuel.
Qed.

Lemma X14_witness :
  AdvancementField.initialize 0 ExampleConfig (VPrim (PNumber 5)) (VPrim PNull)
    {| partial := false |} ExampleHeap = Ok (VPrim (PNumber 5)) ExampleHeap /\
  AdvancementDataField.initialize 0 ExampleDataField (VPrim PNull) (VPrim PNull)
    {| partial := false |} ExampleHeap = Ok (VPrim PNull) ExampleHeap.
Proof.
  split.
  - apply (proj1 (X14_initialize_primitive 0 ExampleConfig ExampleDataField (PNumber 5)
                    (VPrim PNull) {| partial := false |} ExampleHeap)); reflexivity.
  - apply (proj2 (X14_initialize_primitive 0 ExampleConfig ExampleDataField PNull
                    (VPrim PNull) {| partial := false |} ExampleHeap)); reflexivity.
Defined.

(** ** [FormulaField._validateType] *)

(** X15.  A [FormulaField] that is not deterministic does not reject
    dice.  The formula is parsed and evaluated: a parse error or an
    evaluation error is the validation error; otherwise the outcome is
    that of the type validation inherited from the string field.  Whether
    the formula has dice terms, and the safe evaluator, play no part. *)
Theorem X15_FormulaField_nondeterministic
    (Roll : RollClass) (this : FormulaField.t) (value : val) (h : heap) :
  FormulaField.deterministic this = false ->
  (forall e, Roll_new Roll value = inl e ->
     FormulaField._validateType Roll this value h = Throw e) /\
  (forall r e, Roll_new Roll value = inr r -> evaluate Roll r = inl e ->
     FormulaField._validateType Roll this value h = Throw e) /\
  (forall r r', Roll_new Roll value = inr r -> evaluate Roll r = inr r' ->
     FormulaField._validateType Roll this value h
       = FormulaField.super_validateType this value h).
Proof.
  intros Hdet. unfold FormulaField._validateType. rewrite Hdet.
  split; [|split].
  - intros e Hnew. by rewrite Hnew.
  - intros r e Hnew Hev. rewrite Hnew. unfold lift at 1, bind at 1, ret at 1.
    by rewrite Hev.
  - intros r r' Hnew Hev. rewrite Hnew. unfold lift at 1, bind at 1, ret at 1.
    by rewrite Hev.
Qed.

Lemma X15_witness :
  FormulaField._validateType ExampleRoll ExampleDiceFormulaField
    (VPrim (PString "1d6 + 2")) [] = Ok tt [].
Proof.
  apply (proj2 (proj2 (X15_FormulaField_nondeterministic ExampleRoll ExampleDiceFormulaField
                         (VPrim (PString "1d6 + 2")) [] eq_refl)) "1d6 + 2" "1d6 + 2");
    reflexivity.
Defined.

(** X16.  A deterministic [FormulaField] fails before the inherited
    validation is reached: a formula that cannot be parsed fails with the
    error of the parser, and a formula without dice that the safe evaluator
    rejects fails with the error of the evaluator, whatever the inherited
    string validation would have said. *)
Theorem X16_FormulaField_deterministic_errors
    (Roll : RollClass) (this : FormulaField.t) (value : val) (h : heap) :
  FormulaField.deterministic this = true ->
  (forall e, Roll_new Roll value = inl e ->
     FormulaField._validateType Roll this value h = Throw e) /\
  (forall r e, Roll_new Roll value = inr r -> isDeterministic Roll r = true ->
     safeEval Roll (formula Roll r) = inl e ->
     FormulaField._validateType Roll this value h = Throw e).
Proof.
  intros Hdet. unfold FormulaField._validateType. rewrite Hdet. split.
  - intros e Hnew. by rewrite Hnew.
  - intros r e Hnew Hd Hsafe. rewrite Hnew. unfold lift at 1, bind at 1, ret at 1.
    rewrite Hd. cbn [negb]. unfold bind, ret. by rewrite Hsafe.
Qed.

Lemma X16_witness :
  FormulaField._validateType ExampleRoll ExampleFormulaField (VPrim (PNumber 5)) []
    = Throw (Error "Roll formula must be a string") /\
  FormulaField._validateType ExampleRoll ExampleFormulaField (VPrim (PString "2 * 3")) []
    = Throw (Error "Unexpected token").
Proof.
  split.
  - apply (proj1 (X16_FormulaField_deterministic_errors ExampleRoll ExampleFormulaField
                    (VPrim (PNumber 5)) [] eq_refl)). reflexivity.
  - apply (proj2 (X16_FormulaField_deterministic_errors ExampleRoll ExampleFormulaField
                    (VPrim (PString "2 * 3")) [] eq_refl) "2 * 3"); reflexivity.
Defined.

(** ** [MappingField._cleanType] *)

Lemma cleanType_loop (this : MappingField.t) (options : Options) (l : loc) (c : cell) :
  forall vs h,
  h !! l = Some c ->
  (forall v h1, v ∈ vs -> h1 !! l = Some c ->
     exists v' h2, clean (MappingField.model this) v options h1 = Ok v' h2 /\
       h2 !! l = Some c) ->
  exists h',
    forEach vs (fun v => clean (MappingField.model this) v options ;; ret tt) h = Ok tt h' /\
    h' !! l = Some c.
Proof.
  induction vs as [|v vs IH]; intros h Hl Hchild.
  - by exists h.
  - destruct (Hchild v h) as (v' & h2 & Hv & Hl2); [left | done |].
    destruct (IH h2 Hl2) as (h' & Hloop & Hl').
    { intros v0 h1 Hin. apply Hchild. by right. }
    exists h'. split; [|done].
    cbn [forEach]. unfold bind at 1, bind at 1. rewrite Hv. cbn [ret]. exact Hloop.
Qed.

(** X17.  [MappingField._cleanType] returns the raw mapping itself and
    does not write to it: when the child's [clean] accepts every value and
    leaves the mapping object alone, the result is the reference it was
    given and that object has the entries it had, so no key is added,
    removed or renamed and no value is replaced (what the child's [clean]
    returns is not stored).  On [null] and [undefined] it throws the
    TypeError of [Object.values]. *)
Theorem X17_MappingField_cleanType_frame
    (this : MappingField.t) (options : Options) (h : heap) :
  (forall l c,
     h !! l = Some c ->
     (forall v h1, v ∈ map snd (props c) -> h1 !! l = Some c ->
        exists v' h2, clean (MappingField.model this) v options h1 = Ok v' h2 /\
          h2 !! l = Some c) ->
     exists h',
       MappingField._cleanType this (VRef l) options h = Ok (VRef l) h' /\
       h' !! l = Some c) /\
  (forall value, nullish value = true ->
     MappingField._cleanType this value options h
       = Throw (TypeError "Cannot convert undefined or null to object")).
Proof.
  split.
  - intros l c Hl Hchild.
    destruct (cleanType_loop this options l c (map snd (props c)) h Hl Hchild)
      as (h' & Hloop & Hl').
    exists h'. split; [|done].
    unfold MappingField._cleanType, Object_values.
    unfold bind at 1, bind at 1, Object_entries, bind at 1, deref. rewrite Hl. cbn [ret].
    unfold bind at 1. by rewrite Hloop.
  - intros [[]|] Hn; done.
Qed.

Lemma X17_witness :
  exists h',
    MappingField._cleanType ExampleMapping (VRef 0) {| partial := false |}
      ExampleMappingHeap = Ok (VRef 0) h' /\
    h' !! 0 = Some (Cell KObject [("a", VPrim (PString "3")); ("b", VPrim (PString "bad"))]).
Proof.
  apply (proj1 (X17_MappingField_cleanType_frame ExampleMapping {| partial := false |}
                  ExampleMappingHeap) 0
           (Cell KObject [("a", VPrim (PString "3")); ("b", VPrim (PString "bad"))]) eq_refl).
  intros v h1 _ Hl. eexists _, h1. split; [reflexivity | exact Hl].
Defined.

(** ** [VehicleData]: the validation of the hit points *)

(** X18.  The joint validation of the [hp] block, [d => d.min <= d.max],
    for a block whose [min] is a number: with [max] a number it accepts
    exactly when min <= max, equality included; with [max] [null] (its
    declared initial value) it accepts exactly when min <= 0; with [max]
    missing or [undefined] it rejects. *)
Theorem X18_hp_validate
    (l : loc) (c : cell) (m : Z) (h : heap) :
  h !! l = Some c ->
  alist_get "min" (props c) = Some (VPrim (PNumber m)) ->
  (forall x, alist_get "max" (props c) = Some (VPrim (PNumber x)) ->
     VehicleData.hp_validate (VRef l) h = Ok (Some (m <=? x)%Z) h) /\
  (alist_get "max" (props c) = Some (VPrim PNull) ->
     VehicleData.hp_validate (VRef l) h = Ok (Some (m <=? 0)%Z) h) /\
  (alist_get "max" (props c) = None \/ alist_get "max" (props c) = Some (VPrim PUndefined) ->
     VehicleData.hp_validate (VRef l) h = Ok (Some false) h).
Proof.
  intros Hl Hmin. unfold VehicleData.hp_validate.
  pose proof (get_property_ref h l c "min" Hl) as Hgmin. rewrite Hmin in Hgmin.
  pose proof (get_property_ref h l c "max" Hl) as Hgmax.
  rewrite (bind_Ok _ _ _ _ _ Hgmin), (bind_Ok _ _ _ _ _ Hgmax).
  split; [|split].
  - intros x Hmax. by rewrite Hmax.
  - intros Hmax. by rewrite Hmax.
  - intros [Hmax|Hmax]; by rewrite Hmax.
Qed.

Lemma X18_witness :
  VehicleData.hp_validate (VRef 0) ExampleHpHeap = Ok (Some true) ExampleHpHeap /\
  VehicleData.hp_validate (VRef 1) ExampleHpHeap = Ok (Some false) ExampleHpHeap.
Proof.
  split.
  - apply (proj1 (proj2 (X18_hp_validate 0
             (Cell KObject [("value", VPrim PNull); ("min", VPrim (PNumber 0));
                            ("max", VPrim PNull)]) 0 ExampleHpHeap eq_refl eq_refl))).
    reflexivity.
  - apply (proj1 (proj2 (X18_hp_validate 1
             (Cell KObject [("value", VPrim (PNumber 4)); ("min", VPrim (PNumber 2));
                            ("max", VPrim PNull)]) 2 ExampleHpHeap eq_refl eq_refl))).
    reflexivity.
Defined.

(** ** The advancement fields where the lookup resolves nothing *)

(** X19.  For a raw object whose discriminator the lookup of
    [getModelForType] does not resolve (it finds neither a registered
    class nor an inherited member), [AdvancementField._cleanType] returns
    the raw object itself and leaves the heap as it is, so keys and values
    are unchanged; and [AdvancementField.initialize] returns a deep,
    independent copy: every object that existed is unchanged, the copy has
    the content of the raw value, and all its objects are new (none is
    shared with the original) and pairwise distinct. *)
Theorem X19_AdvancementField_unresolved_passthrough_and_clone
    (n : nat) (CONFIG_DND5E : CONFIG) (h : heap) (l : loc) (t : tree)
    (type model : val) (options : Options) :
  reify n h (VRef l) = Some t ->
  get_property (VRef l) "type" h = Ok type h ->
  AdvancementField.getModelForType CONFIG_DND5E type = None ->
  AdvancementField._cleanType CONFIG_DND5E (VRef l) options h = Ok (VRef l) h /\
  exists v' h',
    AdvancementField.initialize n CONFIG_DND5E (VRef l) model options h = Ok v' h' /\
    preserved h h' /\
    exists t', reify n h' v' = Some t' /\ erase t' = erase t /\
      Forall (fun l' => length h <= l') (locs t') /\ NoDup (locs t').
Proof.
  intros Hr Hty Hreg. split.
  - unfold AdvancementField._cleanType. rewrite guard_ref.
    unfold bind at 1, ret at 1. unfold bind at 1. rewrite Hty, Hreg. done.
  - destruct (deepClone_spec _ _ _ _ Hr) as (v' & h' & Hc & Hclone).
    exists v', h'. split; [|exact Hclone].
    unfold AdvancementField.initialize. unfold bind at 1. by rewrite Hty, Hreg.
Qed.

Lemma X19_witness :
  AdvancementField._cleanType ExampleRegistry (VRef 0) {| partial := false |} ExampleHeap
    = Ok (VRef 0) ExampleHeap /\
  exists v' h',
    AdvancementField.initialize 3 ExampleRegistry (VRef 0) (VPrim PNull) {| partial := false |}
      ExampleHeap = Ok v' h' /\
    preserved ExampleHeap h' /\
    exists t', reify 3 h' v' = Some t' /\
      erase t' = erase (TNode 0 KObject
                   [("type", TPrim (PString "Custom"));
                    ("configuration",
                     TNode 1 KObject
                       [("items", TNode 2 KArray [("0", TPrim (PString "a"))]);
                        ("hint", TPrim (PString "x"))])]) /\
      Forall (fun l' => length ExampleHeap <= l') (locs t') /\ NoDup (locs t').
Proof.
  apply (X19_AdvancementField_unresolved_passthrough_and_clone 3 ExampleRegistry ExampleHeap 0 _
           (VPrim (PString "Custom"))); reflexivity.
Defined.

(** X20.  For a raw value whose [typeof] is not
    "object" (undefined, a boolean, a number, a string), both
    [AdvancementField._cleanType] and [AdvancementDataField._cleanType]
    replace the value with a fresh empty object and go on as they do on
    that object; [AdvancementField], when the discriminator [undefined] of
    the empty object is not registered, returns the empty object. *)
Theorem X20_non_object_replaced_by_empty_object (value : val) :
  typeof value <> "object" ->
  (forall CONFIG_DND5E options h,
     AdvancementField._cleanType CONFIG_DND5E value options h =
     AdvancementField._cleanType CONFIG_DND5E (VRef (length h)) options (h ++ [empty_object])) /\
  (forall fuel this options h,
     AdvancementDataField._cleanType fuel this value options h =
     AdvancementDataField._cleanType fuel this (VRef (length h)) options (h ++ [empty_object])) /\
  (forall CONFIG_DND5E options h,
     AdvancementField.getModelForType CONFIG_DND5E (VPrim PUndefined) = None ->
     AdvancementField._cleanType CONFIG_DND5E value options h =
     Ok (VRef (length h)) (h ++ [empty_object])).
Proof.
  intros Hty. repeat split.
  - intros cfg options h. unfold AdvancementField._cleanType.
    by rewrite (guard_not_object _ Hty), guard_ref.
  - intros fuel this options h. unfold AdvancementDataField._cleanType.
    by rewrite (guard_not_object _ Hty), guard_ref.
  - intros cfg options h Hreg. unfold AdvancementField._cleanType.
    rewrite (guard_not_object _ Hty).
    unfold bind at 1, new_object, bind at 1, alloc, ret at 1.
    rewrite (bind_Ok _ _ _ (VPrim PUndefined) (h ++ [empty_object])).
    + by rewrite Hreg.
    + rewrite (get_property_ref _ _ empty_object); [done|].
      by rewrite lookup_app_r, Nat.sub_diag by lia.
Qed.

Lemma X20_witness :
  typeof (VPrim (PString "ItemGrant")) <> "object" /\
  AdvancementField._cleanType ExampleConfig (VPrim (PString "ItemGrant"))
    {| partial := false |} ExampleHeap
  = Ok (VRef 6) (ExampleHeap ++ [empty_object]).
Proof.
  split; [discriminate|].
  apply (X20_non_object_replaced_by_empty_object (VPrim (PString "ItemGrant")));
    [discriminate | reflexivity].
Defined.
